(** * FaceFilters.py: the filter session, its key dispatch and the capture loop

    A shallow embedding of [FaceFilterSystem] (src/FaceFilters.py).  The
    Python object becomes a record that is threaded through a small monad
    with state, exceptions and a trace of the calls made to the external
    collaborators (capture device, landmark provider, overlay filters and
    display). *)

From Stdlib Require Import ZArith QArith Qabs List String Ascii Bool Lia.
Import ListNotations.
Close Scope Q_scope.
Open Scope string_scope.
Open Scope list_scope.
Open Scope Z_scope.

(** ** Frames *)

(** A BGR frame as OpenCV hands it over: rows of pixels, three channels. *)
Definition Pixel : Type := (Z * Z * Z)%type.
Definition Frame : Type := list (list Pixel).

(** [frame.shape[:2]]: (height, width). *)
Definition shape (frame : Frame) : Z * Z :=
  (Z.of_nat (List.length frame), Z.of_nat (List.length (hd [] frame))).

(** [cv2.flip(frame, 1)] on an image, an array with at least one row and one
    column as a successful [cap.read()] returns: flip around the vertical
    axis, every row reversed. *)
Definition cv2_flip_1 (frame : Frame) : Frame := map (@rev Pixel) frame.

(** [cv2.cvtColor(frame, cv2.COLOR_BGR2RGB)]: swap the outer channels. *)
Definition cvtColor_BGR2RGB (frame : Frame) : Frame :=
  map (map (fun px : Pixel => let '(b, g, r) := px in (r, g, b))) frame.

(** The pixel of row [i] and column [j]. *)
Definition pixel_at (frame : Frame) (i j : nat) : option Pixel :=
  match nth_error frame i with
  | Some row => nth_error row j
  | None => None
  end.

(** ** Exceptions and results *)

Inductive Exn : Type :=
| ZeroDivisionError
| OverflowError
| KeyError (k : string)
| AssetLoadError (directory : string).

Inductive Res (A : Type) : Type :=
| Ok (a : A)
| Raise (e : Exn).
Arguments Ok {A} a.
Arguments Raise {A} e.

(** Clock readings are the doubles [time.time()] returns, as rationals.
    For two distinct doubles [1 / (curr_time - prev_time)] is infinite in
    double precision exactly when the difference, which is exact when it is
    this small, is at most 2^-1024 in absolute value; [int] of an infinite
    float raises [OverflowError]. *)
Definition fps_is_infinite (curr_time prev_time : Q) : bool :=
  Qle_bool (Qabs (curr_time - prev_time)%Q) (1 # 2 ^ 1024).
Arguments fps_is_infinite : simpl never.

(** [ord(c)] *)
Definition ord (c : ascii) : Z := Z.of_N (N_of_ascii c).

(** The five filter classes imported from [utils.Filters]. *)
Inductive FilterClass : Type :=
| GlassesFilter | HatFilter | NoseFilter | MouthFilter | FaceMaskFilter.

(** [mp.solutions.face_mesh.FaceMesh(...)]: the keyword arguments. *)
Record FaceMesh : Type := {
  static_image_mode : bool;
  max_num_faces : nat;
  refine_landmarks : bool;
  min_detection_confidence : Q;
  min_tracking_confidence : Q
}.

Inductive direction : Type := next | prev.

(** What one turn of the [while] loop controls. *)
Inductive Loop : Type := Continue | Break.

(** How far [run] got on a finite script of inputs: it left the loop, or the
    loop is still waiting for the next frame. *)
Inductive Outcome : Type := Exited | Pending.

Section FaceFilters.

(** Overlay images and landmark sets are opaque. *)
Variable Asset : Type.
Variable Landmarks : Type.

(** An overlay filter object: its class, the assets it loaded and
    [current_asset_idx]. *)
Record Filter : Type := {
  filter_class : FilterClass;
  assets : list Asset;
  current_asset_idx : Z
}.

(** The asset directories: the loadable images of a directory in load order,
    [None] for a directory that is missing or holds a malformed image. *)
Variable load_dir : string -> option (list Asset).

(** [filter_obj.apply_filter(frame, face_landmarks, frame.shape[:2])]:
    utils/Filters.py is not part of the sources, the method is a parameter
    with the contract of the specification (frame in, frame out). *)
Variable apply_filter : Filter -> Frame -> Landmarks -> Z * Z -> Frame.

(** [cv2.putText(frame, text, (10, 30), ...)]. *)
Variable putText : Frame -> string -> Frame.

(** [f'FPS: {int(fps)}'] for [fps = 1 / (curr_time - prev_time)] in floating
    point; asked for only when the quotient is defined and finite. *)
Variable fps_text : Q -> Q -> string.

(** ** The session object *)

Definition Dict : Type := list (string * Filter).

Record FaceFilterSystem : Type := {
  face_mesh : FaceMesh;
  active_filters : Dict;
  is_face_selected : bool;
  prev_time : Q;
  frame_count : Z
}.

Definition set_active_filters (s : FaceFilterSystem) (d : Dict) :=
  {| face_mesh := face_mesh s; active_filters := d;
     is_face_selected := is_face_selected s; prev_time := prev_time s;
     frame_count := frame_count s |}.

Definition set_is_face_selected (s : FaceFilterSystem) (b : bool) :=
  {| face_mesh := face_mesh s; active_filters := active_filters s;
     is_face_selected := b; prev_time := prev_time s;
     frame_count := frame_count s |}.

Definition set_prev_time (s : FaceFilterSystem) (t : Q) :=
  {| face_mesh := face_mesh s; active_filters := active_filters s;
     is_face_selected := is_face_selected s; prev_time := t;
     frame_count := frame_count s |}.

Definition set_frame_count (s : FaceFilterSystem) (n : Z) :=
  {| face_mesh := face_mesh s; active_filters := active_filters s;
     is_face_selected := is_face_selected s; prev_time := prev_time s;
     frame_count := n |}.

(** ** Calls to the outside world, in the order they are made *)

Inductive Event : Type :=
| EvVideoCapture
| EvNewFilter (c : FilterClass) (directory : string)
| EvIsOpened (b : bool)
| EvRead (r : option Frame)
| EvFlip (frame : Frame)
| EvProcess (frame_rgb : Frame)
| EvApply (name : string) (f : Filter) (frame : Frame) (lm : Landmarks)
          (size : Z * Z)
| EvPutText (frame : Frame) (text : string)
| EvImshow (frame : Frame)
| EvWaitKey (k : Z)
| EvRelease
| EvDestroyAllWindows.

(** What the environment answers during one turn of the loop. *)
Record Tick : Type := {
  isOpened : bool;            (* cap.isOpened() *)
  read : option Frame;        (* cap.read(): None when success is False *)
  faces : list Landmarks;     (* the faces in view, in detection order *)
  time : Q;                   (* time.time() *)
  waitKey : Z                 (* cv2.waitKey(1) *)
}.

(** ** State, exception and trace monad *)

Definition M (S A : Type) : Type := S -> Res A * S * list Event.

Definition ret {S A} (a : A) : M S A := fun s => (Ok a, s, []).

Definition bind {S A B} (m : M S A) (k : A -> M S B) : M S B :=
  fun s =>
    match m s with
    | (Ok a, s1, tr1) =>
        match k a s1 with (r, s2, tr2) => (r, s2, tr1 ++ tr2) end
    | (Raise e, s1, tr1) => (Raise e, s1, tr1)
    end.

Definition raise {S A} (e : Exn) : M S A := fun s => (Raise e, s, []).
Definition get {S} : M S S := fun s => (Ok s, s, []).
Definition put {S} (s' : S) : M S unit := fun _ => (Ok tt, s', []).
Definition emit {S} (e : Event) : M S unit := fun s => (Ok tt, s, [e]).

Notation "x <- m ;; k" := (bind m (fun x => k))
  (at level 61, m at next level, right associativity).
Notation "m ;;; k" := (bind m (fun _ => k))
  (at level 61, right associativity).

Definition result {S A} (x : Res A * S * list Event) : Res A := fst (fst x).
Definition state {S A} (x : Res A * S * list Event) : S := snd (fst x).
Definition trace {S A} (x : Res A * S * list Event) : list Event := snd x.

(** ** The filter constructors *)

(** Modelled from the spec: the constructors of utils/Filters.py, which is
    not part of the sources.  Loading fails with [AssetLoadError] if the
    directory is missing or holds zero loadable images; the new filter owns
    the loaded assets and selects index 0. *)
Definition new_filter {S} (c : FilterClass) (directory : string) : M S Filter :=
  emit (EvNewFilter c directory) ;;;
  match load_dir directory with
  | None | Some [] => raise (AssetLoadError directory)
  | Some imgs =>
      ret {| filter_class := c; assets := imgs; current_asset_idx := 0 |}
  end.

(** The dict literal of the standard configuration, built in source order. *)
Definition standard_filters {S} : M S Dict :=
  g <- new_filter GlassesFilter "imgs/glasses/" ;;
  h <- new_filter HatFilter "imgs/hats/" ;;
  n <- new_filter NoseFilter "imgs/noses/" ;;
  m <- new_filter MouthFilter "imgs/mouths/" ;;
  ret [("glasses", g); ("hat", h); ("nose", n); ("mouth", m)].

Definition face_filters {S} : M S Dict :=
  f <- new_filter FaceMaskFilter "imgs/faces/" ;;
  ret [("face", f)].

(** [FaceFilterSystem.__init__]; [t0] is what [time.time()] returns. *)
Definition __init__ (t0 : Q) : M unit FaceFilterSystem :=
  emit EvVideoCapture ;;;
  let fm := {| static_image_mode := false; max_num_faces := 2;
               refine_landmarks := false;
               min_detection_confidence := 1 # 2;
               min_tracking_confidence := 1 # 2 |} in
  d <- standard_filters ;;
  ret {| face_mesh := fm; active_filters := d; is_face_selected := false;
         prev_time := t0; frame_count := 0 |}.

(** ** Dict access *)

(** [d[k]]; [None] stands for [KeyError]. *)
Fixpoint getitem (d : Dict) (k : string) : option Filter :=
  match d with
  | [] => None
  | (k', f) :: rest => if String.eqb k' k then Some f else getitem rest k
  end.

Definition set_current_asset_idx (f : Filter) (i : Z) : Filter :=
  {| filter_class := filter_class f; assets := assets f;
     current_asset_idx := i |}.

(** [d[k].current_asset_idx = i]: the object stored under [k] is mutated in
    place, the dict keeps its keys and their order. *)
Fixpoint setidx (d : Dict) (k : string) (i : Z) : Dict :=
  match d with
  | [] => []
  | (k', f) :: rest =>
      if String.eqb k' k then (k', set_current_asset_idx f i) :: rest
      else (k', f) :: setidx rest k i
  end.

(** ** The branches of the key dispatch in [run] *)

(** [self.active_filters[name].current_asset_idx =
      (self.active_filters[name].current_asset_idx +/- 1)
        % len(self.active_filters[name].assets)] *)
Definition cycle (name : string) (dir : direction) : M FaceFilterSystem unit :=
  s <- get ;;
  match getitem (active_filters s) name with
  | None => raise (KeyError name)
  | Some f =>
      let i := match dir with
               | next => current_asset_idx f + 1
               | prev => current_asset_idx f - 1
               end in
      let n := Z.of_nat (List.length (assets f)) in
      if n =? 0 then raise ZeroDivisionError
      else put (set_active_filters s (setidx (active_filters s) name (i mod n)))
  end.

(** The body of [elif key == ord('f')]. *)
Definition toggle : M FaceFilterSystem unit :=
  s <- get ;;
  put (set_is_face_selected s (negb (is_face_selected s))) ;;;
  s <- get ;;
  if is_face_selected s then
    d <- face_filters ;; put (set_active_filters s d)
  else
    d <- standard_filters ;; put (set_active_filters s d).

(** The [if]/[elif] chain of [run], lines 98-153; [key] is already masked. *)
Definition dispatch_key (key : Z) : M FaceFilterSystem Loop :=
  s <- get ;;
  let sel := is_face_selected s in
  if (key =? ord "e") && negb sel then cycle "hat" next ;;; ret Continue
  else if (key =? ord "q") && negb sel then cycle "hat" prev ;;; ret Continue
  else if (key =? ord "d") && negb sel then cycle "glasses" next ;;; ret Continue
  else if (key =? ord "a") && negb sel then cycle "glasses" prev ;;; ret Continue
  else if (key =? ord "w") && negb sel then cycle "nose" next ;;; ret Continue
  else if (key =? ord "s") && negb sel then cycle "nose" prev ;;; ret Continue
  else if (key =? ord "c") && negb sel then cycle "mouth" next ;;; ret Continue
  else if (key =? ord "z") && negb sel then cycle "mouth" prev ;;; ret Continue
  else if key =? ord "f" then toggle ;;; ret Continue
  else if (key =? ord "m") && sel then cycle "face" next ;;; ret Continue
  else if (key =? ord "n") && sel then cycle "face" prev ;;; ret Continue
  else if key =? ord "l" then ret Break
  else ret Continue.

(** ** [process_frame] *)

Definition flip_frame (frame : Frame) : Frame := cv2_flip_1 frame.

(** [self.face_mesh.process(frame_rgb).multi_face_landmarks]: MediaPipe
    reports at most [max_num_faces] landmark sets, and [None] when it finds
    no face. *)
Definition multi_face_landmarks (fm : FaceMesh) (in_view : list Landmarks)
  : option (list Landmarks) :=
  match firstn (max_num_faces fm) in_view with
  | [] => None
  | lms => Some lms
  end.

(** [for filter_name, filter_obj in self.active_filters.items(): ...] *)
Fixpoint apply_items (items : Dict) (lm : Landmarks) (frame : Frame)
  : M FaceFilterSystem Frame :=
  match items with
  | [] => ret frame
  | (filter_name, filter_obj) :: rest =>
      emit (EvApply filter_name filter_obj frame lm (shape frame)) ;;;
      apply_items rest lm (apply_filter filter_obj frame lm (shape frame))
  end.

(** [for face_landmarks in results.multi_face_landmarks: ...] *)
Fixpoint apply_faces (lms : list Landmarks) (frame : Frame)
  : M FaceFilterSystem Frame :=
  match lms with
  | [] => ret frame
  | face_landmarks :: rest =>
      s <- get ;;
      frame' <- apply_items (active_filters s) face_landmarks frame ;;
      apply_faces rest frame'
  end.

Definition process_frame (t : Tick) : M FaceFilterSystem (option Frame) :=
  emit (EvRead (read t)) ;;;
  match read t with
  | None => ret None
  | Some frame =>
      emit (EvFlip frame) ;;;
      let frame := flip_frame frame in
      s <- get ;;
      put (set_frame_count s (frame_count s + 1)) ;;;
      let frame_rgb := cvtColor_BGR2RGB frame in
      emit (EvProcess frame_rgb) ;;;
      s <- get ;;
      let results := multi_face_landmarks (face_mesh s) (faces t) in
      frame <- match results with
               | None | Some [] => ret frame
               | Some lms => apply_faces lms frame
               end ;;
      let curr_time := time t in
      s <- get ;;
      if Qeq_bool curr_time (prev_time s) then raise ZeroDivisionError
      else
        put (set_prev_time s curr_time) ;;;
        if fps_is_infinite curr_time (prev_time s) then raise OverflowError
        else
          let text := fps_text curr_time (prev_time s) in
          emit (EvPutText frame text) ;;;
          ret (Some (putText frame text))
  end.

(** ** [run] *)

(** One turn of [while self.cap.isOpened(): ...]. *)
Definition iteration (t : Tick) : M FaceFilterSystem Loop :=
  emit (EvIsOpened (isOpened t)) ;;;
  if isOpened t then
    frame <- process_frame t ;;
    match frame with
    | None => ret Break
    | Some frame =>
        emit (EvImshow frame) ;;;
        emit (EvWaitKey (waitKey t)) ;;;
        let key := Z.land (waitKey t) 255 in
        dispatch_key key
    end
  else ret Break.

(** The loop over a finite script of answers of the environment. *)
Fixpoint run_loop (script : list Tick) : M FaceFilterSystem Outcome :=
  match script with
  | [] => ret Pending
  | t :: rest =>
      c <- iteration t ;;
      match c with
      | Break => ret Exited
      | Continue => run_loop rest
      end
  end.

Definition run (script : list Tick) : M FaceFilterSystem Outcome :=
  o <- run_loop script ;;
  match o with
  | Exited => emit EvRelease ;;; emit EvDestroyAllWindows ;;; ret Exited
  | Pending => ret Pending
  end.

(** [system = FaceFilterSystem(); system.run()] *)
Definition main (t0 : Q) (script : list Tick)
  : Res Outcome * option FaceFilterSystem * list Event :=
  match __init__ t0 tt with
  | (Ok system, _, tr0) =>
      match run script system with
      | (r, s, tr) => (r, Some s, tr0 ++ tr)
      end
  | (Raise e, _, tr0) => (Raise e, None, tr0)
  end.

(** The key dispatch of successive turns of the loop, up to the first
    [break]. *)
Fixpoint dispatch_keys (keys : list Z) : M FaceFilterSystem Loop :=
  match keys with
  | [] => ret Continue
  | key :: rest =>
      c <- dispatch_key key ;;
      match c with
      | Break => ret Break
      | Continue => dispatch_keys rest
      end
  end.

(** The key bindings of the [if]/[elif] chain that cycle assets: the key for
    the next asset, the key for the previous one, the dict key of the filter
    and the value of [is_face_selected] the branch asks for. *)
Definition cycle_bindings : list (Z * Z * string * bool) :=
  [ (ord "e", ord "q", "hat", false);
    (ord "d", ord "a", "glasses", false);
    (ord "w", ord "s", "nose", false);
    (ord "c", ord "z", "mouth", false);
    (ord "m", ord "n", "face", true) ].

(** The keys of the [if]/[elif] chain. *)
Definition standard_cycle_keys : list Z :=
  [ord "e"; ord "q"; ord "d"; ord "a"; ord "w"; ord "s"; ord "c"; ord "z"].

Definition face_cycle_keys : list Z := [ord "m"; ord "n"].

Definition bound_keys : list Z :=
  standard_cycle_keys ++ face_cycle_keys ++ [ord "f"; ord "l"].

(** ** Reading traces *)

Definition is_apply (e : Event) : bool :=
  match e with EvApply _ _ _ _ _ => true | _ => false end.

Definition is_release (e : Event) : bool :=
  match e with EvRelease => true | _ => false end.

Definition is_capture (e : Event) : bool :=
  match e with EvVideoCapture => true | _ => false end.

Definition count (p : Event -> bool) (tr : list Event) : nat :=
  List.length (filter p tr).

(** Events that neither open nor release the capture. *)
Definition quiet (e : Event) : Prop :=
  is_release e = false /\ is_capture e = false.

(** The filter, its key and the landmark set of an [apply_filter] call. *)
Definition apply_call (e : Event) : option (string * Filter * Landmarks) :=
  match e with
  | EvApply name f _ lm _ => Some (name, f, lm)
  | _ => None
  end.

Fixpoint apply_calls (tr : list Event) : list (string * Filter * Landmarks) :=
  match tr with
  | [] => []
  | e :: rest =>
      match apply_call e with
      | Some c => c :: apply_calls rest
      | None => apply_calls rest
      end
  end.

(** The landmark sets of a detection result; none for [None]. *)
Definition landmark_sets (results : option (list Landmarks)) : list Landmarks :=
  match results with
  | None => []
  | Some lms => lms
  end.

(** The frame and the calls of the two nested [for] loops of
    [process_frame], read off [apply_items] and [apply_faces]. *)
Fixpoint items_frame (items : Dict) (lm : Landmarks) (frame : Frame) : Frame :=
  match items with
  | [] => frame
  | (_, f) :: rest => items_frame rest lm (apply_filter f frame lm (shape frame))
  end.

Fixpoint items_trace (items : Dict) (lm : Landmarks) (frame : Frame)
  : list Event :=
  match items with
  | [] => []
  | (name, f) :: rest =>
      EvApply name f frame lm (shape frame)
      :: items_trace rest lm (apply_filter f frame lm (shape frame))
  end.

Fixpoint faces_frame (items : Dict) (lms : list Landmarks) (frame : Frame)
  : Frame :=
  match lms with
  | [] => frame
  | lm :: rest => faces_frame items rest (items_frame items lm frame)
  end.

Fixpoint faces_trace (items : Dict) (lms : list Landmarks) (frame : Frame)
  : list Event :=
  match lms with
  | [] => []
  | lm :: rest =>
      items_trace items lm frame
      ++ faces_trace items rest (items_frame items lm frame)
  end.

(** The [apply_filter] calls of a trace work on one shared frame: each call
    receives the frame the call before it returned. *)
Inductive composited : Frame -> list Event -> Frame -> Prop :=
| composited_nil frame : composited frame [] frame
| composited_apply name f frame lm rest out :
    composited (apply_filter f frame lm (shape frame)) rest out ->
    composited frame (EvApply name f frame lm (shape frame) :: rest) out
| composited_skip e frame rest out :
    is_apply e = false ->
    composited frame rest out ->
    composited frame (e :: rest) out.

(** The calls the specification asks for: face by face in detection order,
    and for each face every active filter in the order of the dict. *)
Definition calls_per_face (items : Dict) (lms : list Landmarks)
  : list (string * Filter * Landmarks) :=
  flat_map (fun lm => map (fun kf => (fst kf, snd kf, lm)) items) lms.

(** The keys of the dict in the two configurations. *)
Definition kind_order (items : Dict) : Prop :=
  map fst items = ["glasses"; "hat"; "nose"; "mouth"] \/
  map fst items = ["face"].

(** A selection index that addresses an asset of the filter. *)
Definition valid_index (f : Filter) : Prop :=
  0 <= current_asset_idx f < Z.of_nat (List.length (assets f)).

(** A filter as the constructor left it, or one whose index was wrapped. *)
Definition fresh_or_valid (f : Filter) : Prop :=
  current_asset_idx f = 0 \/ valid_index f.

Definition indices_ok (s : FaceFilterSystem) : Prop :=
  Forall (fun kf => fresh_or_valid (snd kf)) (active_filters s).

(** A directory that loads: it exists and holds at least one image. *)
Definition loads (directory : string) (imgs : list Asset) : Prop :=
  load_dir directory = Some imgs /\ imgs <> [].

Definition fresh (c : FilterClass) (imgs : list Asset) : Filter :=
  {| filter_class := c; assets := imgs; current_asset_idx := 0 |}.

(** The two configurations of the session, as the constructors build them. *)
Definition standard_config (d : Dict) : Prop :=
  exists g h n m,
    loads "imgs/glasses/" g /\ loads "imgs/hats/" h /\
    loads "imgs/noses/" n /\ loads "imgs/mouths/" m /\
    d = [("glasses", fresh GlassesFilter g); ("hat", fresh HatFilter h);
         ("nose", fresh NoseFilter n); ("mouth", fresh MouthFilter m)].

Definition face_config (d : Dict) : Prop :=
  exists f, loads "imgs/faces/" f /\ d = [("face", fresh FaceMaskFilter f)].

(** ** Notions used to state and prove the properties *)

(** The session with the index of the filter under [name] set to [j]. *)
Definition with_index (s : FaceFilterSystem) (name : string) (j : Z) :=
  set_active_filters s (setidx (active_filters s) name j).

(** A triple with one postcondition for a normal return and one for an
    exception. *)
Definition hoare {S A} (P : S -> Prop) (m : M S A)
           (Q : A -> S -> Prop) (E : S -> Prop) : Prop :=
  forall s, P s ->
    match result (m s) with
    | Ok a => Q a (state (m s))
    | Raise _ => E (state (m s))
    end.

(** Every event of every trace of [m] satisfies [P]. *)
Definition emits {S A} (P : Event -> Prop) (m : M S A) : Prop :=
  forall s, Forall P (trace (m s)).

(** ** Notions for the properties beyond the claims *)

(** The keys of the dict with the class of the filter under each. *)
Definition signature (d : Dict) : list (string * FilterClass) :=
  map (fun kf => (fst kf, filter_class (snd kf))) d.

(** The mode flag and the dict agree, and every filter holds an asset. *)
Definition coherent (s : FaceFilterSystem) : Prop :=
  signature (active_filters s)
  = (if is_face_selected s
     then [("face", FaceMaskFilter)]
     else [("glasses", GlassesFilter); ("hat", HatFilter);
           ("nose", NoseFilter); ("mouth", MouthFilter)]) /\
  Forall (fun kf => assets (snd kf) <> []) (active_filters s).

(** The directories the constructors of [FaceFilters.py] are given. *)
Definition asset_directories : list string :=
  ["imgs/glasses/"; "imgs/hats/"; "imgs/noses/"; "imgs/mouths/";
   "imgs/faces/"].

(** An exception of a constructor: one of the directories does not load. *)
Definition load_failure (e : Exn) : Prop :=
  exists directory,
    e = AssetLoadError directory /\ In directory asset_directories /\
    forall imgs, ~ loads directory imgs.

(** Every exception [m] can raise satisfies [X]. *)
Definition raises {S A} (X : Exn -> Prop) (m : M S A) : Prop :=
  forall s e, result (m s) = Raise e -> X e.

(** The tick with another answer of [cv2.waitKey]. *)
Definition set_waitKey (t : Tick) (k : Z) : Tick :=
  {| isOpened := isOpened t; read := read t; faces := faces t;
     time := time t; waitKey := k |}.

Definition is_flip (e : Event) : bool :=
  match e with EvFlip _ => true | _ => false end.

Definition is_process (e : Event) : bool :=
  match e with EvProcess _ => true | _ => false end.

Definition is_new_filter (e : Event) : bool :=
  match e with EvNewFilter _ _ => true | _ => false end.

(** * Properties *)

(** ** The monad *)

Lemma bind_ok {S A B} (m : M S A) (k : A -> M S B) s a s1 tr1 :
  m s = (Ok a, s1, tr1) ->
  bind m k s = (fst (fst (k a s1)), snd (fst (k a s1)), tr1 ++ snd (k a s1)).
Proof.
  intros E. unfold bind. rewrite E.
  destruct (k a s1) as [[r s2] tr2]. reflexivity.
Qed.

Lemma bind_raised {S A B} (m : M S A) (k : A -> M S B) s e s1 tr1 :
  m s = (Raise e, s1, tr1) -> bind m k s = (Raise e, s1, tr1).
Proof. intros E. unfold bind. rewrite E. reflexivity. Qed.

Lemma bind_ok_eq {S A B} (m : M S A) (k : A -> M S B) s a s1 tr1 :
  m s = (Ok a, s1, tr1) ->
  bind m k s
  = (result (k a s1), state (k a s1), tr1 ++ trace (k a s1)).
Proof. apply bind_ok. Qed.

Lemma bind_emit {S B} e (k : unit -> M S B) s :
  bind (emit e) k s = (result (k tt s), state (k tt s), e :: trace (k tt s)).
Proof. unfold bind, emit. destruct (k tt s) as [[r s2] tr2]. reflexivity. Qed.

Lemma bind_get {S B} (k : S -> M S B) s : bind get k s = k s s.
Proof. unfold bind, get. destruct (k s s) as [[r s2] tr2]. reflexivity. Qed.

Lemma hoare_bind {S A B} (P : S -> Prop) (m : M S A) (k : A -> M S B)
      (Q : A -> S -> Prop) (R : B -> S -> Prop) (E : S -> Prop) :
  hoare P m Q E -> (forall a, hoare (Q a) (k a) R E) ->
  hoare P (bind m k) R E.
Proof.
  intros Hm Hk s Hs. specialize (Hm s Hs). unfold bind.
  destruct (m s) as [[[a|e] s1] tr1]; cbn in *; [|exact Hm].
  specialize (Hk a s1 Hm). destruct (k a s1) as [[r s2] tr2]. exact Hk.
Qed.

Lemma hoare_weaken {S A} (P P' : S -> Prop) (m : M S A)
      (Q Q' : A -> S -> Prop) (E E' : S -> Prop) :
  hoare P' m Q' E' ->
  (forall s, P s -> P' s) -> (forall a s, Q' a s -> Q a s) ->
  (forall s, E' s -> E s) ->
  hoare P m Q E.
Proof.
  intros H HP HQ HE s Hs. specialize (H s (HP s Hs)).
  destruct (result (m s)); auto.
Qed.

Lemma hoare_ret {S A} (P : S -> Prop) (Q : A -> S -> Prop) (E : S -> Prop) a :
  (forall s, P s -> Q a s) -> hoare P (ret a) Q E.
Proof. intros H s Hs. exact (H s Hs). Qed.

Lemma hoare_raise {S A} (P : S -> Prop) (Q : A -> S -> Prop) (E : S -> Prop) e :
  (forall s, P s -> E s) -> hoare P (raise e) Q E.
Proof. intros H s Hs. exact (H s Hs). Qed.

Lemma hoare_emit {S} (P : S -> Prop) (Q : unit -> S -> Prop) (E : S -> Prop) e :
  (forall s, P s -> Q tt s) -> hoare P (emit e) Q E.
Proof. intros H s Hs. exact (H s Hs). Qed.

Lemma hoare_put {S} (P : S -> Prop) (Q : unit -> S -> Prop) (E : S -> Prop) s' :
  Q tt s' -> hoare P (put s') Q E.
Proof. intros H s _. exact H. Qed.

Lemma hoare_get_bind {S B} (P : S -> Prop) (k : S -> M S B)
      (R : B -> S -> Prop) (E : S -> Prop) :
  (forall s0, P s0 -> hoare (fun s => s = s0) (k s0) R E) ->
  hoare P (bind get k) R E.
Proof.
  intros H s Hs. specialize (H s Hs s eq_refl). unfold bind, get.
  destruct (k s s) as [[r s2] tr2]. exact H.
Qed.

Lemma hoare_seq {S A B} (P Q : S -> Prop) (m : M S A) (k : M S B)
      (R : B -> S -> Prop) (E : S -> Prop) :
  hoare P m (fun _ => Q) E -> hoare Q k R E ->
  hoare P (bind m (fun _ => k)) R E.
Proof.
  intros Hm Hk. apply (hoare_bind P m (fun _ => k) (fun _ => Q) R E Hm).
  intros a. exact Hk.
Qed.

Lemma hoare_assume {S A} (phi : Prop) (P : S -> Prop) (m : M S A)
      (Q : A -> S -> Prop) (E : S -> Prop) :
  (phi -> hoare P m Q E) -> hoare (fun s => P s /\ phi) m Q E.
Proof. intros H s [Hs Hphi]. exact (H Hphi s Hs). Qed.

Lemma emits_bind {S A B} (P : Event -> Prop) (m : M S A) (k : A -> M S B) :
  emits P m -> (forall a, emits P (k a)) -> emits P (bind m k).
Proof.
  intros Hm Hk s. specialize (Hm s). unfold bind.
  destruct (m s) as [[[a|e] s1] tr1]; cbn in *; [|exact Hm].
  specialize (Hk a s1). destruct (k a s1) as [[r s2] tr2]. cbn in *.
  apply Forall_app. split; assumption.
Qed.

Lemma emits_ret {S A} (P : Event -> Prop) (a : A) : emits P (@ret S A a).
Proof. intros s. constructor. Qed.

Lemma emits_raise {S A} (P : Event -> Prop) e : emits P (@raise S A e).
Proof. intros s. constructor. Qed.

Lemma emits_get {S} (P : Event -> Prop) : emits P (@get S).
Proof. intros s. constructor. Qed.

Lemma emits_put {S} (P : Event -> Prop) (s' : S) : emits P (put s').
Proof. intros s. constructor. Qed.

Lemma emits_emit {S} (P : Event -> Prop) e : P e -> emits P (@emit S e).
Proof. intros He s. constructor; [exact He | constructor]. Qed.

(** ** The dict *)

Lemma getitem_In d k f : getitem d k = Some f -> In (k, f) d.
Proof.
  induction d as [|[k' f'] d IH]; cbn; [discriminate|].
  destruct (String.eqb_spec k' k) as [->|Hne]; intros E.
  - injection E as ->. now left.
  - right. apply IH, E.
Qed.

Lemma getitem_setidx_same d k i f :
  getitem d k = Some f ->
  getitem (setidx d k i) k = Some (set_current_asset_idx f i).
Proof.
  induction d as [|[k' f'] d IH]; cbn; [discriminate|].
  destruct (String.eqb_spec k' k) as [->|Hne]; cbn.
  - rewrite String.eqb_refl. now intros [= ->].
  - destruct (String.eqb_spec k' k); [contradiction|]. exact IH.
Qed.

Lemma setidx_setidx d k i j : setidx (setidx d k i) k j = setidx d k j.
Proof.
  induction d as [|[k' f'] d IH]; cbn; [reflexivity|].
  destruct (String.eqb_spec k' k) as [->|Hne]; cbn.
  - rewrite String.eqb_refl. reflexivity.
  - destruct (String.eqb_spec k' k); [contradiction|]. now rewrite IH.
Qed.

Lemma setidx_same d k f :
  getitem d k = Some f -> setidx d k (current_asset_idx f) = d.
Proof.
  induction d as [|[k' f'] d IH]; cbn; [reflexivity|].
  destruct (String.eqb_spec k' k) as [->|Hne]; intros E.
  - injection E as ->. destruct f. reflexivity.
  - now rewrite IH.
Qed.

Lemma setidx_keys d k i : map fst (setidx d k i) = map fst d.
Proof.
  induction d as [|[k' f'] d IH]; cbn; [reflexivity|].
  destruct (String.eqb k' k); cbn; [reflexivity | now rewrite IH].
Qed.

Lemma setidx_Forall (P : Filter -> Prop) d k i :
  Forall (fun kf => P (snd kf)) d ->
  (forall f, getitem d k = Some f -> P (set_current_asset_idx f i)) ->
  Forall (fun kf => P (snd kf)) (setidx d k i).
Proof.
  induction d as [|[k' f'] d IH]; cbn; intros HF Hk; [constructor|].
  inversion HF as [|? ? Hf' Hd]; subst.
  destruct (String.eqb_spec k' k) as [->|Hne].
  - constructor; [apply Hk; reflexivity | exact Hd].
  - constructor; [exact Hf' | apply IH; assumption].
Qed.

(** ** The constructors *)

Lemma new_filter_run {S} c directory (s : S) :
  (exists imgs, loads directory imgs /\
     new_filter c directory s
     = (Ok (fresh c imgs), s, [EvNewFilter c directory])) \/
  ((forall imgs, ~ loads directory imgs) /\
     new_filter c directory s
     = (Raise (AssetLoadError directory), s, [EvNewFilter c directory])).
Proof.
  unfold new_filter, loads, bind, emit, ret, raise; cbn.
  destruct (load_dir directory) as [[|a imgs]|] eqn:E.
  - right. split; [|reflexivity]. intros imgs [H1 H2]. congruence.
  - left. exists (a :: imgs).
    split; [split; [reflexivity | discriminate] | reflexivity].
  - right. split; [|reflexivity]. intros imgs [H1 H2]. congruence.
Qed.

Lemma new_filter_hoare {S} (P : S -> Prop) c directory :
  hoare P (new_filter c directory)
        (fun f s => P s /\ exists imgs, loads directory imgs /\ f = fresh c imgs)
        P.
Proof.
  intros s Hs.
  destruct (new_filter_run c directory s) as [(imgs & Hl & ->)|[_ ->]]; cbn.
  - split; [exact Hs|]. exists imgs. split; [exact Hl | reflexivity].
  - exact Hs.
Qed.

Lemma standard_filters_hoare {S} (P : S -> Prop) :
  hoare P standard_filters (fun d s => P s /\ standard_config d) P.
Proof.
  unfold standard_filters.
  eapply hoare_bind; [apply new_filter_hoare|]. intros g.
  apply hoare_assume. intros (gi & Hg & ->).
  eapply hoare_bind; [apply new_filter_hoare|]. intros h.
  apply hoare_assume. intros (hi & Hh & ->).
  eapply hoare_bind; [apply new_filter_hoare|]. intros n.
  apply hoare_assume. intros (ni & Hn & ->).
  eapply hoare_bind; [apply new_filter_hoare|]. intros m.
  apply hoare_assume. intros (mi & Hm & ->).
  intros s HP. cbn. split; [exact HP|].
  exists gi, hi, ni, mi. auto.
Qed.

Lemma face_filters_hoare {S} (P : S -> Prop) :
  hoare P face_filters (fun d s => P s /\ face_config d) P.
Proof.
  unfold face_filters.
  eapply hoare_bind; [apply new_filter_hoare|]. intros f.
  intros s [HP (fi & Hf & ->)]. cbn. split; [exact HP|].
  exists fi. split; [exact Hf | reflexivity].
Qed.

(** ** Invariants of the session *)

Section Invariant.

(** A property of the session that every assignment of the program keeps. *)
Variable I : FaceFilterSystem -> Prop.
Hypothesis I_frame_count : forall s n, I s -> I (set_frame_count s n).
Hypothesis I_prev_time : forall s t, I s -> I (set_prev_time s t).
Hypothesis I_selected : forall s b, I s -> I (set_is_face_selected s b).
Hypothesis I_cycle : forall s name f i,
  I s -> getitem (active_filters s) name = Some f ->
  Z.of_nat (List.length (assets f)) <> 0 ->
  I (set_active_filters s
       (setidx (active_filters s) name
               (i mod Z.of_nat (List.length (assets f))))).
Hypothesis I_rebuild : forall s d,
  I s -> standard_config d \/ face_config d -> I (set_active_filters s d).

Lemma cycle_inv name dir : hoare I (cycle name dir) (fun _ => I) I.
Proof.
  unfold cycle. apply hoare_get_bind. intros s0 H0.
  destruct (getitem (active_filters s0) name) as [f|] eqn:Ef.
  - destruct (Z.eqb_spec (Z.of_nat (List.length (assets f))) 0) as [Hz|Hnz].
    + apply hoare_raise. now intros ? ->.
    + apply hoare_put. now apply I_cycle.
  - apply hoare_raise. now intros ? ->.
Qed.

Lemma toggle_inv : hoare I toggle (fun _ => I) I.
Proof.
  unfold toggle. apply hoare_get_bind. intros s0 H0.
  eapply hoare_seq; [apply (hoare_put _ (fun _ => I)); now apply I_selected|].
  apply hoare_get_bind. intros s1 H1.
  destruct (is_face_selected s1).
  - eapply hoare_bind.
    + eapply hoare_weaken;
        [apply (face_filters_hoare I) | now intros ? ->
        | intros a s HQ; exact HQ | intros s HE; exact HE].
    + intros d. apply hoare_assume. intros Hd. apply hoare_put.
      apply I_rebuild; [exact H1 | now right].
  - eapply hoare_bind.
    + eapply hoare_weaken;
        [apply (standard_filters_hoare I) | now intros ? ->
        | intros a s HQ; exact HQ | intros s HE; exact HE].
    + intros d. apply hoare_assume. intros Hd. apply hoare_put.
      apply I_rebuild; [exact H1 | now left].
Qed.

Lemma hoare_from {A} (m : M FaceFilterSystem A) (Q : A -> FaceFilterSystem -> Prop)
      s0 :
  I s0 -> hoare I m Q I -> hoare (fun s => s = s0) m Q I.
Proof. intros H0 H s ->. exact (H s0 H0). Qed.

Lemma dispatch_key_inv key : hoare I (dispatch_key key) (fun _ => I) I.
Proof.
  unfold dispatch_key. apply hoare_get_bind. intros s0 H0.
  repeat match goal with
         | |- hoare _ (if ?b then _ else _) _ _ => destruct b
         end;
    try (apply hoare_ret; now intros ? ->);
    (eapply hoare_seq;
     [apply hoare_from; [exact H0 | first [apply cycle_inv | apply toggle_inv]]
     | apply hoare_ret; auto]).
Qed.

Lemma dispatch_keys_inv keys : hoare I (dispatch_keys keys) (fun _ => I) I.
Proof.
  induction keys as [|key rest IH]; cbn.
  - apply hoare_ret. auto.
  - eapply hoare_bind; [apply dispatch_key_inv|].
    intros [|]; [exact IH | apply hoare_ret; auto].
Qed.

Lemma apply_items_inv items lm frame :
  hoare I (apply_items items lm frame) (fun _ => I) I.
Proof.
  revert frame. induction items as [|[name f] rest IH]; intros frame; cbn.
  - apply hoare_ret. auto.
  - eapply hoare_seq; [apply hoare_emit; intros s Hs; exact Hs | apply IH].
Qed.

Lemma apply_faces_inv lms frame :
  hoare I (apply_faces lms frame) (fun _ => I) I.
Proof.
  revert frame. induction lms as [|lm rest IH]; intros frame; cbn.
  - apply hoare_ret. auto.
  - apply hoare_get_bind. intros s0 H0.
    eapply hoare_bind; [apply hoare_from; [exact H0 | apply apply_items_inv]|].
    intros frame'. apply IH.
Qed.

Lemma process_frame_inv t : hoare I (process_frame t) (fun _ => I) I.
Proof.
  unfold process_frame.
  eapply hoare_seq; [apply hoare_emit; intros s Hs; exact Hs|].
  destruct (read t) as [frame|]; [|apply hoare_ret; auto].
  eapply hoare_seq; [apply hoare_emit; intros s Hs; exact Hs|].
  apply hoare_get_bind. intros s0 H0.
  eapply hoare_seq;
    [apply (hoare_put _ (fun _ => I)); now apply I_frame_count|].
  eapply hoare_seq; [apply hoare_emit; intros s Hs; exact Hs|].
  apply hoare_get_bind. intros s1 H1.
  eapply hoare_bind with (Q := fun _ => I).
  - apply hoare_from; [exact H1|].
    destruct (multi_face_landmarks (face_mesh s1) (faces t)) as [[|lm lms]|];
      [apply hoare_ret; auto | apply apply_faces_inv | apply hoare_ret; auto].
  - intros out. apply hoare_get_bind. intros s2 H2.
    destruct (Qeq_bool (time t) (prev_time s2)).
    + apply hoare_raise. now intros ? ->.
    + eapply hoare_seq;
        [apply (hoare_put _ (fun _ => I)); now apply I_prev_time|].
      destruct (fps_is_infinite (time t) (prev_time s2)).
      * apply hoare_raise. auto.
      * eapply hoare_seq; [apply hoare_emit; intros s Hs; exact Hs|].
        apply hoare_ret. auto.
Qed.

Lemma iteration_inv t : hoare I (iteration t) (fun _ => I) I.
Proof.
  unfold iteration.
  eapply hoare_seq; [apply hoare_emit; intros s Hs; exact Hs|].
  destruct (isOpened t); [|apply hoare_ret; auto].
  eapply hoare_bind; [apply process_frame_inv|].
  intros [frame|]; [|apply hoare_ret; auto].
  eapply hoare_seq; [apply hoare_emit; intros s Hs; exact Hs|].
  eapply hoare_seq; [apply hoare_emit; intros s Hs; exact Hs|].
  apply dispatch_key_inv.
Qed.

Lemma run_loop_inv script : hoare I (run_loop script) (fun _ => I) I.
Proof.
  induction script as [|t rest IH]; cbn.
  - apply hoare_ret. auto.
  - eapply hoare_bind; [apply iteration_inv|].
    intros [|]; [exact IH | apply hoare_ret; auto].
Qed.

Lemma run_inv script : hoare I (run script) (fun _ => I) I.
Proof.
  unfold run. eapply hoare_bind; [apply run_loop_inv|].
  intros [|]; [|apply hoare_ret; auto].
  eapply hoare_seq; [apply hoare_emit; intros s Hs; exact Hs|].
  eapply hoare_seq; [apply hoare_emit; intros s Hs; exact Hs|].
  apply hoare_ret. auto.
Qed.

(** Whatever [run] does, it leaves the session in a state of the invariant. *)
Lemma run_state script s : I s -> I (state (run script s)).
Proof.
  intros Hs. pose proof (run_inv script s Hs) as H.
  destruct (result (run script s)); exact H.
Qed.

End Invariant.

(** ** Selection indices *)

Lemma wrapped_index_valid f i :
  Z.of_nat (List.length (assets f)) <> 0 ->
  valid_index
    (set_current_asset_idx f (i mod Z.of_nat (List.length (assets f)))).
Proof.
  intros Hn. unfold valid_index. cbn. apply Z.mod_pos_bound. lia.
Qed.

Lemma config_fresh d :
  standard_config d \/ face_config d ->
  Forall (fun kf => current_asset_idx (snd kf) = 0) d.
Proof.
  intros [(g & h & n & m & _ & _ & _ & _ & ->)|(f & _ & ->)];
    repeat constructor.
Qed.

Lemma run_indices_ok script s : indices_ok s -> indices_ok (state (run script s)).
Proof.
  apply run_state; unfold indices_ok; cbn; auto.
  - intros s0 name f i H0 Hf Hn. apply setidx_Forall; [exact H0|].
    intros f' Hf'. rewrite Hf in Hf'. injection Hf' as <-.
    right. now apply wrapped_index_valid.
  - intros s0 d _ Hd. apply config_fresh in Hd.
    eapply Forall_impl; [|exact Hd]. intros kf H. now left.
Qed.

(** C1. Start [run] in a session whose filters all select index 0.  After
    any script of frames and keys (cycling forwards and backwards, toggling,
    anything else), every active filter that holds at least one asset has
    its selection index in [0, assetCount). *)
Theorem cycling_keeps_index_in_range script s :
  (forall name f, In (name, f) (active_filters s) -> current_asset_idx f = 0) ->
  forall name f,
    In (name, f) (active_filters (state (run script s))) ->
    1 <= Z.of_nat (List.length (assets f)) ->
    0 <= current_asset_idx f < Z.of_nat (List.length (assets f)).
Proof.
  intros H0 name f Hin Hn.
  assert (Hok : indices_ok s).
  { apply Forall_forall. intros [k g] Hk. left. exact (H0 k g Hk). }
  apply (run_indices_ok script) in Hok.
  unfold indices_ok in Hok. rewrite Forall_forall in Hok.
  destruct (Hok (name, f) Hin) as [Hz|Hv]; [|exact Hv].
  cbn in Hz. rewrite Hz. lia.
Qed.

(** ** Cycling *)

Lemma set_active_filters_same s : set_active_filters s (active_filters s) = s.
Proof. destruct s. reflexivity. Qed.

Lemma cycle_run name dir s f :
  getitem (active_filters s) name = Some f ->
  assets f <> [] ->
  cycle name dir s
  = (Ok tt,
     set_active_filters s
       (setidx (active_filters s) name
          ((match dir with
            | next => current_asset_idx f + 1
            | prev => current_asset_idx f - 1
            end) mod Z.of_nat (List.length (assets f)))),
     []).
Proof.
  intros Hf Hne. unfold cycle, bind, get. rewrite Hf.
  destruct (Z.eqb_spec (Z.of_nat (List.length (assets f))) 0) as [Hz|Hnz].
  - destruct (assets f); [contradiction | cbn in Hz; lia].
  - reflexivity.
Qed.

Lemma dispatch_binding nk pk name mode s :
  In (nk, pk, name, mode) cycle_bindings ->
  is_face_selected s = mode ->
  dispatch_key nk s = bind (cycle name next) (fun _ => ret Continue) s /\
  dispatch_key pk s = bind (cycle name prev) (fun _ => ret Continue) s.
Proof.
  intros Hin Hsel. destruct s as [fm d sel pt fc]. cbn in Hsel. subst sel.
  unfold cycle_bindings in Hin. cbn in Hin.
  repeat (destruct Hin as [Hin|Hin];
          [injection Hin as <- <- <- <-; unfold dispatch_key;
           rewrite !bind_get; split; reflexivity|]).
  contradiction.
Qed.

Lemma with_index_same s name f :
  getitem (active_filters s) name = Some f ->
  with_index s name (current_asset_idx f) = s.
Proof.
  intros Hf. unfold with_index. rewrite (setidx_same _ _ _ Hf).
  apply set_active_filters_same.
Qed.

Lemma dispatch_binding_step nk pk name mode s f j :
  In (nk, pk, name, mode) cycle_bindings ->
  is_face_selected s = mode ->
  getitem (active_filters s) name = Some f ->
  assets f <> [] ->
  dispatch_key nk (with_index s name j)
  = (Ok Continue,
     with_index s name ((j + 1) mod Z.of_nat (List.length (assets f))), [])
  /\
  dispatch_key pk (with_index s name j)
  = (Ok Continue,
     with_index s name ((j - 1) mod Z.of_nat (List.length (assets f))), []).
Proof.
  intros Hin Hsel Hf Hne.
  destruct (dispatch_binding nk pk name mode (with_index s name j) Hin Hsel)
    as [-> ->].
  assert (Hg : getitem (active_filters (with_index s name j)) name
               = Some (set_current_asset_idx f j)).
  { cbn. now apply getitem_setidx_same. }
  split.
  - rewrite (bind_ok _ _ _ _ _ _ (cycle_run name next _ _ Hg Hne)). cbn.
    unfold with_index. cbn. now rewrite setidx_setidx.
  - rewrite (bind_ok _ _ _ _ _ _ (cycle_run name prev _ _ Hg Hne)). cbn.
    unfold with_index. cbn. now rewrite setidx_setidx.
Qed.

Lemma dispatch_next_repeat nk pk name mode s f :
  In (nk, pk, name, mode) cycle_bindings ->
  is_face_selected s = mode ->
  getitem (active_filters s) name = Some f ->
  assets f <> [] ->
  forall k j,
    0 <= j < Z.of_nat (List.length (assets f)) ->
    dispatch_keys (repeat nk k) (with_index s name j)
    = (Ok Continue,
       with_index s name
         ((j + Z.of_nat k) mod Z.of_nat (List.length (assets f))), []).
Proof.
  intros Hin Hsel Hf Hne. induction k as [|k IH]; intros j Hj.
  - cbn. rewrite Z.add_0_r, Z.mod_small by exact Hj. reflexivity.
  - cbn [repeat dispatch_keys].
    destruct (dispatch_binding_step nk pk name mode s f j Hin Hsel Hf Hne)
      as [Hstep _].
    rewrite (bind_ok _ _ _ _ _ _ Hstep).
    rewrite IH by (apply Z.mod_pos_bound; lia). cbn.
    rewrite Zplus_mod_idemp_l.
    replace (j + 1 + Z.of_nat k) with (j + Z.of_nat (S k)) by lia.
    reflexivity.
Qed.

(** C2. For each of the five filters, in the state whose branch cycles it:
    if the filter holds N >= 1 assets and selects one of them, pressing its
    next key N times brings the session back to where it was, and pressing
    its previous key right after its next key does so too. *)
Theorem cycle_next_N_times_and_prev_after_next nk pk name mode s f :
  In (nk, pk, name, mode) cycle_bindings ->
  is_face_selected s = mode ->
  getitem (active_filters s) name = Some f ->
  1 <= Z.of_nat (List.length (assets f)) ->
  0 <= current_asset_idx f < Z.of_nat (List.length (assets f)) ->
  dispatch_keys (repeat nk (List.length (assets f))) s = (Ok Continue, s, []) /\
  dispatch_keys [nk; pk] s = (Ok Continue, s, []).
Proof.
  intros Hin Hsel Hf HN Hidx.
  assert (Hne : assets f <> []).
  { intros E. rewrite E in HN. cbn in HN. lia. }
  pose proof (with_index_same s name f Hf) as Hs.
  split.
  - rewrite <- Hs at 1.
    rewrite (dispatch_next_repeat nk pk name mode s f Hin Hsel Hf Hne _ _ Hidx).
    rewrite <- (Z.mul_1_l (Z.of_nat (List.length (assets f)))) at 1.
    rewrite Z.mod_add by lia. rewrite Z.mod_small by exact Hidx.
    now rewrite Hs.
  - rewrite <- Hs at 1. cbn [dispatch_keys].
    destruct (dispatch_binding_step nk pk name mode s f
                (current_asset_idx f) Hin Hsel Hf Hne) as [Hnext _].
    rewrite (bind_ok _ _ _ _ _ _ Hnext).
    destruct (dispatch_binding_step nk pk name mode s f
                ((current_asset_idx f + 1)
                   mod Z.of_nat (List.length (assets f))) Hin Hsel Hf Hne)
      as [_ Hprev].
    rewrite (bind_ok _ _ _ _ _ _ Hprev). cbn.
    rewrite Zminus_mod_idemp_l.
    replace (current_asset_idx f + 1 - 1) with (current_asset_idx f) by lia.
    rewrite Z.mod_small by exact Hidx. now rewrite Hs.
Qed.

(** ** Toggling *)

Lemma new_filter_ok {S} c directory imgs (s : S) :
  loads directory imgs ->
  new_filter c directory s = (Ok (fresh c imgs), s, [EvNewFilter c directory]).
Proof.
  intros [Hl Hne]. unfold new_filter, bind, emit. rewrite Hl.
  destruct imgs; [contradiction | reflexivity].
Qed.

Lemma standard_filters_ok {S} g h n m (s : S) :
  loads "imgs/glasses/" g -> loads "imgs/hats/" h ->
  loads "imgs/noses/" n -> loads "imgs/mouths/" m ->
  standard_filters s
  = (Ok [("glasses", fresh GlassesFilter g); ("hat", fresh HatFilter h);
         ("nose", fresh NoseFilter n); ("mouth", fresh MouthFilter m)],
     s,
     [EvNewFilter GlassesFilter "imgs/glasses/";
      EvNewFilter HatFilter "imgs/hats/";
      EvNewFilter NoseFilter "imgs/noses/";
      EvNewFilter MouthFilter "imgs/mouths/"]).
Proof.
  intros Hg Hh Hn Hm. unfold standard_filters.
  rewrite (bind_ok _ _ _ _ _ _ (new_filter_ok GlassesFilter _ _ s Hg)).
  rewrite (bind_ok _ _ _ _ _ _ (new_filter_ok HatFilter _ _ s Hh)).
  rewrite (bind_ok _ _ _ _ _ _ (new_filter_ok NoseFilter _ _ s Hn)).
  rewrite (bind_ok _ _ _ _ _ _ (new_filter_ok MouthFilter _ _ s Hm)).
  reflexivity.
Qed.

Lemma face_filters_ok {S} f (s : S) :
  loads "imgs/faces/" f ->
  face_filters s
  = (Ok [("face", fresh FaceMaskFilter f)], s,
     [EvNewFilter FaceMaskFilter "imgs/faces/"]).
Proof.
  intros Hf. unfold face_filters.
  rewrite (bind_ok _ _ _ _ _ _ (new_filter_ok FaceMaskFilter _ _ s Hf)).
  reflexivity.
Qed.

Lemma dispatch_toggle s :
  dispatch_key (ord "f") s = bind toggle (fun _ => ret Continue) s.
Proof.
  unfold dispatch_key. rewrite bind_get.
  destruct (is_face_selected s); reflexivity.
Qed.

Lemma toggle_on s f :
  is_face_selected s = false -> loads "imgs/faces/" f ->
  toggle s
  = (Ok tt,
     set_active_filters (set_is_face_selected s true)
       [("face", fresh FaceMaskFilter f)],
     [EvNewFilter FaceMaskFilter "imgs/faces/"]).
Proof.
  intros Hsel Hf. unfold toggle. rewrite bind_get, Hsel.
  unfold bind at 1, put. rewrite bind_get. cbn [is_face_selected set_is_face_selected negb].
  rewrite (bind_ok _ _ _ _ _ _ (face_filters_ok f _ Hf)). reflexivity.
Qed.

Lemma toggle_off s g h n m :
  is_face_selected s = true ->
  loads "imgs/glasses/" g -> loads "imgs/hats/" h ->
  loads "imgs/noses/" n -> loads "imgs/mouths/" m ->
  toggle s
  = (Ok tt,
     set_active_filters (set_is_face_selected s false)
       [("glasses", fresh GlassesFilter g); ("hat", fresh HatFilter h);
        ("nose", fresh NoseFilter n); ("mouth", fresh MouthFilter m)],
     [EvNewFilter GlassesFilter "imgs/glasses/";
      EvNewFilter HatFilter "imgs/hats/";
      EvNewFilter NoseFilter "imgs/noses/";
      EvNewFilter MouthFilter "imgs/mouths/"]).
Proof.
  intros Hsel Hg Hh Hn Hm. unfold toggle. rewrite bind_get, Hsel.
  unfold bind at 1, put. rewrite bind_get. cbn [is_face_selected set_is_face_selected negb].
  rewrite (bind_ok _ _ _ _ _ _ (standard_filters_ok g h n m _ Hg Hh Hn Hm)).
  reflexivity.
Qed.

(** C3. Let the five asset directories load.  From any session in the
    STANDARD state, whatever its filters and their indices, the toggle key
    pressed twice leaves the session in the STANDARD state with the dict
    glasses, hat, nose, mouth (in this order) of newly built filters, each at
    index 0; in between, the session is in the FACE_MASK state with the one
    filter face.  [__init__] builds a session in the STANDARD state with the
    same dict. *)
Theorem toggle_twice_resets_standard s g h n m f :
  loads "imgs/glasses/" g -> loads "imgs/hats/" h ->
  loads "imgs/noses/" n -> loads "imgs/mouths/" m ->
  loads "imgs/faces/" f ->
  is_face_selected s = false ->
  let standard :=
    [("glasses", fresh GlassesFilter g); ("hat", fresh HatFilter h);
     ("nose", fresh NoseFilter n); ("mouth", fresh MouthFilter m)] in
  let once := dispatch_keys [ord "f"] s in
  let twice := dispatch_keys [ord "f"; ord "f"] s in
  (result once = Ok Continue /\
   is_face_selected (state once) = true /\
   active_filters (state once) = [("face", fresh FaceMaskFilter f)]) /\
  (result twice = Ok Continue /\
   is_face_selected (state twice) = false /\
   active_filters (state twice) = standard /\
   Forall (fun kf => current_asset_idx (snd kf) = 0)
          (active_filters (state twice))) /\
  (forall t0,
      exists s0,
        result (__init__ t0 tt) = Ok s0 /\
        is_face_selected s0 = false /\ active_filters s0 = standard).
Proof.
  intros Hg Hh Hn Hm Hf Hsel standard once twice.
  assert (Hon := toggle_on s f Hsel Hf).
  assert (Hoff := toggle_off
                    (set_active_filters (set_is_face_selected s true)
                       [("face", fresh FaceMaskFilter f)])
                    g h n m eq_refl Hg Hh Hn Hm).
  assert (E1 : once
               = (Ok Continue,
                  set_active_filters (set_is_face_selected s true)
                    [("face", fresh FaceMaskFilter f)],
                  [EvNewFilter FaceMaskFilter "imgs/faces/"])).
  { unfold once. cbn [dispatch_keys]. rewrite bind_ok_eq with
      (a := Continue)
      (s1 := set_active_filters (set_is_face_selected s true)
               [("face", fresh FaceMaskFilter f)])
      (tr1 := [EvNewFilter FaceMaskFilter "imgs/faces/"]).
    - reflexivity.
    - rewrite dispatch_toggle, (bind_ok _ _ _ _ _ _ Hon). reflexivity. }
  assert (E2 : result twice = Ok Continue /\
               is_face_selected (state twice) = false /\
               active_filters (state twice) = standard).
  { unfold twice. cbn [dispatch_keys]. rewrite bind_ok_eq with
      (a := Continue)
      (s1 := set_active_filters (set_is_face_selected s true)
               [("face", fresh FaceMaskFilter f)])
      (tr1 := [EvNewFilter FaceMaskFilter "imgs/faces/"]).
    - rewrite bind_ok_eq with
        (a := Continue)
        (s1 := set_active_filters
                 (set_is_face_selected
                    (set_active_filters (set_is_face_selected s true)
                       [("face", fresh FaceMaskFilter f)]) false) standard)
        (tr1 := [EvNewFilter GlassesFilter "imgs/glasses/";
                 EvNewFilter HatFilter "imgs/hats/";
                 EvNewFilter NoseFilter "imgs/noses/";
                 EvNewFilter MouthFilter "imgs/mouths/"]).
      + cbn. auto.
      + rewrite dispatch_toggle, (bind_ok _ _ _ _ _ _ Hoff). reflexivity.
    - rewrite dispatch_toggle, (bind_ok _ _ _ _ _ _ Hon). reflexivity. }
  split; [rewrite E1; cbn; auto|].
  destruct E2 as (R2 & S2 & A2).
  split.
  - repeat split; try assumption. rewrite A2. repeat constructor.
  - intros t0. unfold __init__.
    eexists. rewrite bind_ok_eq with (a := tt) (s1 := tt) (tr1 := [EvVideoCapture]);
      [|reflexivity].
    rewrite (bind_ok _ _ _ _ _ _ (standard_filters_ok g h n m tt Hg Hh Hn Hm)).
    cbn. auto.
Qed.

(** ** The key dispatch *)

Lemma toggle_flips s :
  is_face_selected (state (toggle s)) = negb (is_face_selected s).
Proof.
  set (b := negb (is_face_selected s)).
  assert (H : hoare (fun s' => s' = s) toggle
                    (fun _ s' => is_face_selected s' = b)
                    (fun s' => is_face_selected s' = b)).
  { unfold toggle. apply hoare_get_bind. intros s0 ->.
    eapply hoare_seq
      with (Q := fun s' => s' = set_is_face_selected s (negb (is_face_selected s))).
    { apply hoare_put. reflexivity. }
    apply hoare_get_bind. intros s1 ->.
    eapply hoare_weaken with (P' := fun s' => is_face_selected s' = b);
      [| now intros ? -> | intros a s' HQ; exact HQ | intros s' HE; exact HE].
    destruct (is_face_selected (set_is_face_selected s _)).
    - eapply hoare_bind; [apply face_filters_hoare|].
      intros d. apply hoare_put. reflexivity.
    - eapply hoare_bind; [apply standard_filters_hoare|].
      intros d. apply hoare_put. reflexivity. }
  specialize (H s eq_refl). destruct (result (toggle s)); exact H.
Qed.

Lemma dispatch_unbound key s :
  ~ In key bound_keys -> dispatch_key key s = (Ok Continue, s, []).
Proof.
  intros Hk. unfold dispatch_key. rewrite bind_get.
  repeat match goal with
         | |- context [key =? ?k] =>
             replace (key =? k) with false
               by (symmetry; apply Z.eqb_neq; intros ->; apply Hk;
                   cbn; intuition reflexivity)
         end.
  reflexivity.
Qed.

Lemma dispatch_foreign_cycle_key key s :
  (In key standard_cycle_keys /\ is_face_selected s = true) \/
  (In key face_cycle_keys /\ is_face_selected s = false) ->
  dispatch_key key s = (Ok Continue, s, []).
Proof.
  intros [[Hin Hsel]|[Hin Hsel]]; cbn in Hin;
    repeat (destruct Hin as [<-|Hin];
            [unfold dispatch_key; rewrite bind_get, Hsel; reflexivity|]);
    contradiction.
Qed.

(** ** One frame *)

Lemma apply_items_run items lm frame s :
  apply_items items lm frame s
  = (Ok (items_frame items lm frame), s, items_trace items lm frame).
Proof.
  revert frame. induction items as [|[name f] rest IH]; intros frame; cbn.
  - reflexivity.
  - unfold bind, emit. rewrite IH. reflexivity.
Qed.

Lemma apply_faces_run lms frame s :
  apply_faces lms frame s
  = (Ok (faces_frame (active_filters s) lms frame), s,
     faces_trace (active_filters s) lms frame).
Proof.
  revert frame. induction lms as [|lm rest IH]; intros frame;
    cbn [apply_faces faces_frame faces_trace].
  - reflexivity.
  - rewrite bind_get.
    rewrite (bind_ok _ _ _ _ _ _ (apply_items_run _ lm frame s)).
    rewrite IH. reflexivity.
Qed.

Lemma process_frame_none t s :
  read t = None -> process_frame t s = (Ok None, s, [EvRead None]).
Proof. intros E. unfold process_frame. rewrite E. reflexivity. Qed.

Lemma process_frame_run t s frame :
  read t = Some frame ->
  let s1 := set_frame_count s (frame_count s + 1) in
  let lms := landmark_sets (multi_face_landmarks (face_mesh s) (faces t)) in
  let out := faces_frame (active_filters s) lms (flip_frame frame) in
  let tr := [EvRead (Some frame); EvFlip frame;
             EvProcess (cvtColor_BGR2RGB (flip_frame frame))]
            ++ faces_trace (active_filters s) lms (flip_frame frame) in
  let text := fps_text (time t) (prev_time s) in
  process_frame t s
  = if Qeq_bool (time t) (prev_time s)
    then (Raise ZeroDivisionError, s1, tr)
    else if fps_is_infinite (time t) (prev_time s)
    then (Raise OverflowError, set_prev_time s1 (time t), tr)
    else (Ok (Some (putText out text)), set_prev_time s1 (time t),
          tr ++ [EvPutText out text]).
Proof.
  intros E. cbv zeta. unfold process_frame. rewrite E.
  unfold bind, emit, get, put, ret, raise.
  cbn [face_mesh prev_time frame_count active_filters set_frame_count].
  destruct (multi_face_landmarks (face_mesh s) (faces t)) as [[|lm lms]|];
    try rewrite apply_faces_run;
    cbn [face_mesh prev_time frame_count active_filters set_frame_count
         landmark_sets faces_frame faces_trace app];
    destruct (Qeq_bool (time t) (prev_time s)); rewrite ?app_nil_r;
    try reflexivity;
    destruct (fps_is_infinite (time t) (prev_time s)); rewrite ?app_nil_r;
    reflexivity.
Qed.

(** ** The loop *)

Lemma tuple_eta {S A} (x : Res A * S * list Event) :
  x = (result x, state x, trace x).
Proof. destruct x as [[r s] tr]. reflexivity. Qed.

Lemma iteration_closed t s :
  isOpened t = false -> iteration t s = (Ok Break, s, [EvIsOpened false]).
Proof. intros E. unfold iteration. rewrite E. reflexivity. Qed.

Lemma iteration_read_failed t s :
  isOpened t = true -> read t = None ->
  iteration t s = (Ok Break, s, [EvIsOpened true; EvRead None]).
Proof.
  intros Eo Er. unfold iteration. rewrite Eo.
  rewrite bind_emit, (bind_ok_eq _ _ _ _ _ _ (process_frame_none t s Er)).
  reflexivity.
Qed.

Lemma iteration_frame t s frame s1 tr1 :
  isOpened t = true ->
  process_frame t s = (Ok (Some frame), s1, tr1) ->
  let d := dispatch_key (Z.land (waitKey t) 255) s1 in
  iteration t s
  = (result d, state d,
     EvIsOpened true
     :: tr1 ++ EvImshow frame :: EvWaitKey (waitKey t) :: trace d).
Proof.
  intros Eo Ep d. unfold iteration. rewrite Eo.
  rewrite bind_emit, (bind_ok_eq _ _ _ _ _ _ Ep), !bind_emit.
  reflexivity.
Qed.

Lemma run_loop_app pre rest s s1 tr1 :
  run_loop pre s = (Ok Pending, s1, tr1) ->
  run_loop (pre ++ rest) s
  = (result (run_loop rest s1), state (run_loop rest s1),
     tr1 ++ trace (run_loop rest s1)).
Proof.
  revert s tr1. induction pre as [|t pre IH]; intros s tr1.
  - cbn [run_loop app]. intros [= -> <-]. apply tuple_eta.
  - cbn [run_loop app]. unfold bind at 1 2.
    destruct (iteration t s) as [[[[|]|e] s'] tr'].
    + destruct (run_loop pre s') as [[r2 s2] tr2] eqn:E2.
      intros [= -> -> <-]. rewrite (IH _ _ E2). cbn.
      now rewrite app_assoc.
    + cbn. discriminate.
    + discriminate.
Qed.

Lemma run_exit pre t rest s s1 tr1 s2 tr2 :
  run_loop pre s = (Ok Pending, s1, tr1) ->
  iteration t s1 = (Ok Break, s2, tr2) ->
  run (pre ++ t :: rest) s
  = (Ok Exited, s2, tr1 ++ tr2 ++ [EvRelease; EvDestroyAllWindows]).
Proof.
  intros Hpre Hit. unfold run.
  assert (E : run_loop (pre ++ t :: rest) s = (Ok Exited, s2, tr1 ++ tr2)).
  { rewrite (run_loop_app _ _ _ _ _ Hpre). cbn [run_loop].
    rewrite (bind_ok _ _ _ _ _ _ Hit). cbn. now rewrite app_nil_r. }
  rewrite (bind_ok _ _ _ _ _ _ E). cbn. now rewrite <- app_assoc.
Qed.

(** C4. The key dispatch, for every session [s] and key.
    - A cycle key changes nothing in the state that does not own its filter:
      the eight keys of the standard filters when a face mask is selected,
      the two keys of the face mask in the standard state; in the state that
      owns the filter the key runs the index update of that filter.
    - The toggle key flips [is_face_selected] in both states, and rebuilds
      the dict of the other configuration when its directories load.
    - The quit key breaks: [run] leaves the loop and returns.
    - Any other key changes nothing and raises nothing. *)
Theorem key_dispatch_by_state s :
  (forall key,
      (In key standard_cycle_keys /\ is_face_selected s = true) \/
      (In key face_cycle_keys /\ is_face_selected s = false) ->
      dispatch_key key s = (Ok Continue, s, [])) /\
  (forall nk pk name mode,
      In (nk, pk, name, mode) cycle_bindings -> is_face_selected s = mode ->
      dispatch_key nk s = bind (cycle name next) (fun _ => ret Continue) s /\
      dispatch_key pk s = bind (cycle name prev) (fun _ => ret Continue) s) /\
  (is_face_selected (state (dispatch_key (ord "f") s))
   = negb (is_face_selected s) /\
   forall g h n m f,
     loads "imgs/glasses/" g -> loads "imgs/hats/" h ->
     loads "imgs/noses/" n -> loads "imgs/mouths/" m ->
     loads "imgs/faces/" f ->
     result (dispatch_key (ord "f") s) = Ok Continue /\
     active_filters (state (dispatch_key (ord "f") s))
     = if is_face_selected s
       then [("glasses", fresh GlassesFilter g); ("hat", fresh HatFilter h);
             ("nose", fresh NoseFilter n); ("mouth", fresh MouthFilter m)]
       else [("face", fresh FaceMaskFilter f)]) /\
  (dispatch_key (ord "l") s = (Ok Break, s, []) /\
   forall t rest s0 frame tr,
     isOpened t = true ->
     process_frame t s0 = (Ok (Some frame), s, tr) ->
     Z.land (waitKey t) 255 = ord "l" ->
     run (t :: rest) s0
     = (Ok Exited, s,
        EvIsOpened true
        :: tr ++ [EvImshow frame; EvWaitKey (waitKey t);
                  EvRelease; EvDestroyAllWindows])) /\
  (forall key,
      ~ In key bound_keys -> dispatch_key key s = (Ok Continue, s, [])).
Proof.
  assert (Hquit : dispatch_key (ord "l") s = (Ok Break, s, [])).
  { unfold dispatch_key. rewrite bind_get.
    destruct (is_face_selected s); reflexivity. }
  split; [|split; [|split; [|split]]].
  - intros key. apply dispatch_foreign_cycle_key.
  - intros nk pk name mode. apply dispatch_binding.
  - split.
    + rewrite dispatch_toggle.
      pose proof (toggle_flips s) as Hf.
      unfold bind. destruct (toggle s) as [[[[]|e] s1] tr1]; exact Hf.
    + intros g h n m f Hg Hh Hn Hm Hf.
      rewrite dispatch_toggle. destruct (is_face_selected s) eqn:Hsel.
      * now rewrite (bind_ok _ _ _ _ _ _ (toggle_off s g h n m Hsel Hg Hh Hn Hm)).
      * now rewrite (bind_ok _ _ _ _ _ _ (toggle_on s f Hsel Hf)).
  - split; [exact Hquit|].
    intros t rest s0 frame tr Ho Hp Hk.
    pose proof (iteration_frame t s0 frame s tr Ho Hp) as Hit.
    cbv zeta in Hit. rewrite Hk, Hquit in Hit. cbn in Hit.
    pose proof (run_exit [] t rest s0 s0 [] _ _ eq_refl Hit) as Hrun.
    cbn [app] in Hrun. rewrite Hrun. cbn. now rewrite <- app_assoc.
  - intros key. apply dispatch_unbound.
Qed.

(** C6. A failed read: [process_frame] returns [None] and touches nothing;
    the loop, wherever it stands, is left without an exception, and [run]
    releases the capture and returns. *)
Theorem read_failure_ends_run pre t rest s s1 tr1 :
  run_loop pre s = (Ok Pending, s1, tr1) ->
  isOpened t = true ->
  read t = None ->
  process_frame t s1 = (Ok None, s1, [EvRead None]) /\
  run (pre ++ t :: rest) s
  = (Ok Exited, s1,
     tr1 ++ [EvIsOpened true; EvRead None; EvRelease; EvDestroyAllWindows]).
Proof.
  intros Hpre Ho Hr. split.
  - now apply process_frame_none.
  - apply (run_exit pre t rest s s1 tr1 s1 [EvIsOpened true; EvRead None] Hpre).
    now apply iteration_read_failed.
Qed.

(** ** Frames without a face *)

(** C5 fails on the code.  On a frame that was read and on which the
    landmark provider reports no landmark set, no filter is applied, as the
    claim says; but the frame does not always pass through.  When the clock
    reads the value it read at the frame before, the frame rate divides by
    zero: [process_frame] raises [ZeroDivisionError] instead of returning
    the frame, the exception leaves [run], nothing is shown and no later
    frame is processed.  When the two readings differ by 2^-1024 or less
    the frame rate is infinite and [int(fps)] raises [OverflowError]. *)
Theorem no_faces_frame_rate_raises t s frame :
  read t = Some frame ->
  landmark_sets (multi_face_landmarks (face_mesh s) (faces t)) = [] ->
  let s1 := set_frame_count s (frame_count s + 1) in
  let tr := [EvRead (Some frame); EvFlip frame;
             EvProcess (cvtColor_BGR2RGB (flip_frame frame))] in
  count is_apply (trace (process_frame t s)) = 0%nat /\
  (Qeq_bool (time t) (prev_time s) = true ->
   process_frame t s = (Raise ZeroDivisionError, s1, tr) /\
   (isOpened t = true ->
    forall rest,
      run (t :: rest) s = (Raise ZeroDivisionError, s1, EvIsOpened true :: tr))) /\
  (Qeq_bool (time t) (prev_time s) = false ->
   fps_is_infinite (time t) (prev_time s) = true ->
   process_frame t s = (Raise OverflowError, set_prev_time s1 (time t), tr)).
Proof.
  intros Hr Hl s1 tr.
  pose proof (process_frame_run t s frame Hr) as E. cbv zeta in E.
  rewrite Hl in E. cbn [faces_frame faces_trace app] in E.
  fold s1 in E. fold tr in E.
  split; [|split].
  - rewrite E.
    destruct (Qeq_bool (time t) (prev_time s)); [reflexivity|].
    destruct (fps_is_infinite (time t) (prev_time s)); reflexivity.
  - intros Hq. rewrite Hq in E. split; [exact E|].
    intros Ho rest. unfold run. cbn [run_loop].
    assert (Hit : iteration t s
                  = (Raise ZeroDivisionError, s1, EvIsOpened true :: tr)).
    { unfold iteration. rewrite Ho, bind_emit, (bind_raised _ _ _ _ _ _ E).
      reflexivity. }
    rewrite (bind_raised _ _ _ _ _ _ (bind_raised _ _ _ _ _ _ Hit)).
    reflexivity.
  - intros Hq Hinf. now rewrite Hq, Hinf in E.
Qed.

(** ** The capture handle *)

Ltac quiet_step :=
  match goal with
  | |- emits _ (bind _ _) => apply emits_bind; [|intros ?]
  | |- emits _ (ret _) => apply emits_ret
  | |- emits _ (raise _) => apply emits_raise
  | |- emits _ get => apply emits_get
  | |- emits _ (put _) => apply emits_put
  | |- emits _ (emit _) => apply emits_emit; split; reflexivity
  | |- emits _ (if ?b then _ else _) => destruct b
  | |- emits _ (match ?x with _ => _ end) => destruct x
  end.

Ltac quiet_seq :=
  apply emits_bind;
  [first [apply emits_get | apply emits_put
         | apply emits_emit; split; reflexivity]
  | intros ?].

Lemma new_filter_quiet {S} c directory : emits quiet (@new_filter S c directory).
Proof. unfold new_filter. repeat quiet_step. Qed.

Lemma standard_filters_quiet {S} : emits quiet (@standard_filters S).
Proof.
  unfold standard_filters.
  repeat (apply emits_bind; [apply new_filter_quiet | intros ?]).
  apply emits_ret.
Qed.

Lemma face_filters_quiet {S} : emits quiet (@face_filters S).
Proof.
  unfold face_filters.
  apply emits_bind; [apply new_filter_quiet | intros ?]. apply emits_ret.
Qed.

Lemma cycle_quiet name dir : emits quiet (cycle name dir).
Proof. unfold cycle. cbv zeta. repeat quiet_step. Qed.

Lemma toggle_quiet : emits quiet toggle.
Proof.
  unfold toggle. do 3 quiet_seq.
  quiet_step; (apply emits_bind;
               [first [apply face_filters_quiet | apply standard_filters_quiet]
               | intros ?; apply emits_put]).
Qed.

Lemma dispatch_key_quiet key : emits quiet (dispatch_key key).
Proof.
  unfold dispatch_key. cbv zeta. apply emits_bind; [apply emits_get|].
  intros s0.
  repeat match goal with
         | |- emits _ (if ?b then _ else _) => destruct b
         end;
    try apply emits_ret;
    (apply emits_bind;
     [first [apply cycle_quiet | apply toggle_quiet]
     | intros ?; apply emits_ret]).
Qed.

Lemma apply_items_quiet items lm frame : emits quiet (apply_items items lm frame).
Proof.
  intros s. rewrite apply_items_run. cbn [trace snd]. revert frame.
  induction items as [|[name f] rest IH]; intros frame; cbn.
  - constructor.
  - constructor; [split; reflexivity | apply IH].
Qed.

Lemma apply_faces_quiet lms frame : emits quiet (apply_faces lms frame).
Proof.
  revert frame. induction lms as [|lm rest IH]; intros frame; cbn.
  - apply emits_ret.
  - apply emits_bind; [apply emits_get|]. intros s0.
    apply emits_bind; [apply apply_items_quiet|]. intros frame'. apply IH.
Qed.

Lemma process_frame_quiet t : emits quiet (process_frame t).
Proof.
  unfold process_frame. cbv zeta. quiet_seq.
  destruct (read t) as [frame|]; [|apply emits_ret].
  do 5 quiet_seq. apply emits_bind; [|intros ?].
  - destruct (multi_face_landmarks _ _) as [[|lm lms]|];
      [apply emits_ret | apply apply_faces_quiet | apply emits_ret].
  - repeat quiet_step.
Qed.

Lemma iteration_quiet t : emits quiet (iteration t).
Proof.
  unfold iteration. cbv zeta. quiet_seq.
  destruct (isOpened t); [|apply emits_ret].
  apply emits_bind; [apply process_frame_quiet|].
  intros [frame|]; [|apply emits_ret].
  do 2 quiet_seq. apply dispatch_key_quiet.
Qed.

Lemma run_loop_quiet script : emits quiet (run_loop script).
Proof.
  induction script as [|t rest IH]; cbn.
  - apply emits_ret.
  - apply emits_bind; [apply iteration_quiet|].
    intros [|]; [exact IH | apply emits_ret].
Qed.

Lemma count_app p tr1 tr2 : count p (tr1 ++ tr2) = (count p tr1 + count p tr2)%nat.
Proof. unfold count. now rewrite filter_app, length_app. Qed.

Lemma count_quiet tr :
  Forall quiet tr -> count is_release tr = 0%nat /\ count is_capture tr = 0%nat.
Proof.
  unfold count. induction 1 as [|e tr [Hr Hc] _ [IHr IHc]]; cbn.
  - split; reflexivity.
  - rewrite Hr, Hc. split; assumption.
Qed.

Lemma init_trace t0 :
  exists tr,
    trace (__init__ t0 tt) = EvVideoCapture :: tr /\ Forall quiet tr.
Proof.
  unfold __init__. rewrite bind_emit. cbn [trace snd].
  eexists. split; [reflexivity|].
  apply (emits_bind quiet); [apply standard_filters_quiet|].
  intros d. apply emits_ret.
Qed.

Lemma run_trace script s :
  exists tr,
    Forall quiet tr /\
    ((result (run script s) = Ok Exited /\
      trace (run script s) = tr ++ [EvRelease; EvDestroyAllWindows]) \/
     (result (run script s) <> Ok Exited /\ trace (run script s) = tr)).
Proof.
  pose proof (run_loop_quiet script s) as Hq. unfold run, bind.
  destruct (run_loop script s) as [[[[|]|e] s1] tr1]; cbn in *;
    exists tr1; (split; [exact Hq|]).
  - left. split; reflexivity.
  - right. split; [discriminate | apply app_nil_r].
  - right. split; [discriminate | reflexivity].
Qed.

(** C7, amended.  The capture is opened once, by the first statement of
    [__init__].  Whenever [run] leaves its loop (the capture is no longer
    opened, a read failed, or the quit key was pressed) it releases the
    capture exactly once, as the last thing it does before destroying the
    windows.  In every other execution, one that is still in the loop or one
    that an exception ended, no release has happened. *)
Theorem capture_released_when_loop_exits t0 script :
  let x := main t0 script in
  (exists tr, trace x = EvVideoCapture :: tr /\ count is_capture tr = 0%nat) /\
  (result x = Ok Exited ->
   count is_release (trace x) = 1%nat /\
   exists tr, trace x = tr ++ [EvRelease; EvDestroyAllWindows]) /\
  (result x <> Ok Exited -> count is_release (trace x) = 0%nat).
Proof.
  cbv zeta. unfold main.
  destruct (init_trace t0) as (tr0 & E0 & Q0).
  destruct (__init__ t0 tt) as [[[s0|e] u] tri]; cbn [trace snd] in E0; subst tri.
  - destruct (run_trace script s0) as (tr & Q & H).
    destruct (run script s0) as [[r s1] trr]. cbn [result trace fst snd] in *.
    destruct (count_quiet _ Q0) as [R0 C0].
    destruct (count_quiet _ Q) as [R1 C1].
    destruct H as [[-> ->]|[Hne ->]].
    + split; [|split].
      * eexists. split; [reflexivity|].
        rewrite !count_app, C0, C1. reflexivity.
      * intros _. split.
        -- change (EvVideoCapture :: tr0) with ([EvVideoCapture] ++ tr0).
           rewrite !count_app, R0, R1. reflexivity.
        -- exists (EvVideoCapture :: tr0 ++ tr). cbn. now rewrite app_assoc.
      * intros Hc. now contradiction Hc.
    + split; [|split].
      * eexists. split; [reflexivity|]. rewrite count_app, C0, C1. reflexivity.
      * intros Hc. contradiction.
      * intros _. change (EvVideoCapture :: tr0) with ([EvVideoCapture] ++ tr0).
        rewrite <- app_assoc, !count_app, R0, R1. reflexivity.
  - cbn [result trace fst snd]. destruct (count_quiet _ Q0) as [R0 C0].
    split; [|split].
    + eexists. split; [reflexivity | exact C0].
    + discriminate.
    + intros _. change (EvVideoCapture :: tr0) with ([EvVideoCapture] ++ tr0).
      rewrite count_app, R0. reflexivity.
Qed.

(** ** The calls of one frame *)

Lemma apply_calls_app tr1 tr2 :
  apply_calls (tr1 ++ tr2) = apply_calls tr1 ++ apply_calls tr2.
Proof.
  induction tr1 as [|e tr1 IH]; cbn; [reflexivity|].
  destruct (apply_call e); cbn; now rewrite IH.
Qed.

Lemma apply_calls_items items lm frame :
  apply_calls (items_trace items lm frame)
  = map (fun kf => (fst kf, snd kf, lm)) items.
Proof.
  revert frame. induction items as [|[name f] rest IH]; intros frame; cbn.
  - reflexivity.
  - now rewrite IH.
Qed.

Lemma apply_calls_faces items lms frame :
  apply_calls (faces_trace items lms frame) = calls_per_face items lms.
Proof.
  revert frame. induction lms as [|lm rest IH]; intros frame; cbn.
  - reflexivity.
  - now rewrite apply_calls_app, apply_calls_items, IH.
Qed.

Lemma count_apply_items items lm frame :
  count is_apply (items_trace items lm frame) = List.length items.
Proof.
  unfold count. revert frame.
  induction items as [|[name f] rest IH]; intros frame; cbn.
  - reflexivity.
  - now rewrite IH.
Qed.

Lemma count_apply_faces items lms frame :
  count is_apply (faces_trace items lms frame)
  = (List.length lms * List.length items)%nat.
Proof.
  revert frame. induction lms as [|lm rest IH]; intros frame;
    cbn [faces_trace].
  - reflexivity.
  - rewrite count_app, count_apply_items, IH. reflexivity.
Qed.

Lemma composited_app a tr1 b tr2 c :
  composited a tr1 b -> composited b tr2 c -> composited a (tr1 ++ tr2) c.
Proof.
  intros H1 H2. induction H1; cbn.
  - exact H2.
  - apply composited_apply. now apply IHcomposited.
  - apply composited_skip; [assumption | now apply IHcomposited].
Qed.

Lemma composited_items items lm frame :
  composited frame (items_trace items lm frame) (items_frame items lm frame).
Proof.
  revert frame. induction items as [|[name f] rest IH]; intros frame; cbn.
  - constructor.
  - apply composited_apply. apply IH.
Qed.

Lemma composited_faces items lms frame :
  composited frame (faces_trace items lms frame) (faces_frame items lms frame).
Proof.
  revert frame. induction lms as [|lm rest IH]; intros frame; cbn.
  - constructor.
  - eapply composited_app; [apply composited_items | apply IH].
Qed.

(** What [process_frame] calls and returns on a frame that was read. *)
Lemma process_frame_calls t s frame :
  read t = Some frame ->
  let lms := landmark_sets (multi_face_landmarks (face_mesh s) (faces t)) in
  let out := faces_frame (active_filters s) lms (flip_frame frame) in
  exists rest,
    trace (process_frame t s)
    = EvRead (Some frame) :: EvFlip frame
      :: EvProcess (cvtColor_BGR2RGB (flip_frame frame)) :: rest /\
    composited (flip_frame frame) rest out /\
    apply_calls rest = calls_per_face (active_filters s) lms /\
    count is_apply rest
    = (List.length lms * List.length (active_filters s))%nat /\
    (forall shown,
        result (process_frame t s) = Ok (Some shown) ->
        shown = putText out (fps_text (time t) (prev_time s))).
Proof.
  intros Hr lms out.
  pose proof (process_frame_run t s frame Hr) as E. cbv zeta in E.
  fold lms in E. fold out in E.
  pose proof (composited_faces (active_filters s) lms (flip_frame frame)) as Hc.
  fold out in Hc.
  assert (Hraise : forall e s',
             process_frame t s
             = (Raise e, s',
                [EvRead (Some frame); EvFlip frame;
                 EvProcess (cvtColor_BGR2RGB (flip_frame frame))]
                ++ faces_trace (active_filters s) lms (flip_frame frame)) ->
             exists rest,
               trace (process_frame t s)
               = EvRead (Some frame) :: EvFlip frame
                 :: EvProcess (cvtColor_BGR2RGB (flip_frame frame)) :: rest /\
               composited (flip_frame frame) rest out /\
               apply_calls rest = calls_per_face (active_filters s) lms /\
               count is_apply rest
               = (List.length lms * List.length (active_filters s))%nat /\
               (forall shown,
                   result (process_frame t s) = Ok (Some shown) ->
                   shown = putText out (fps_text (time t) (prev_time s)))).
  { intros e s' E'. rewrite E'. cbn [trace result fst snd app].
    exists (faces_trace (active_filters s) lms (flip_frame frame)).
    repeat split; try assumption.
    - apply apply_calls_faces.
    - apply count_apply_faces.
    - discriminate. }
  destruct (Qeq_bool (time t) (prev_time s)); [exact (Hraise _ _ E)|].
  destruct (fps_is_infinite (time t) (prev_time s)); [exact (Hraise _ _ E)|].
  rewrite E; cbn [trace result fst snd app].
  exists (faces_trace (active_filters s) lms (flip_frame frame)
          ++ [EvPutText out (fps_text (time t) (prev_time s))]).
  split; [reflexivity|]. split; [|split; [|split]].
  - eapply composited_app; [exact Hc|].
    apply composited_skip; [reflexivity | constructor].
  - rewrite apply_calls_app, apply_calls_faces. cbn. apply app_nil_r.
  - rewrite count_app, count_apply_faces. cbn. lia.
  - now intros shown [= <-].
Qed.

(** ** Sessions that [main] reaches *)

Lemma init_ok t0 s0 :
  result (__init__ t0 tt) = Ok s0 ->
  standard_config (active_filters s0) /\
  max_num_faces (face_mesh s0) = 2%nat /\
  is_face_selected s0 = false.
Proof.
  unfold __init__. rewrite bind_emit. cbn [result fst]. unfold bind.
  pose proof (standard_filters_hoare (fun _ : unit => True) tt I) as H.
  destruct (standard_filters tt) as [[[d|e] u] tr]; cbn in *.
  - intros [= <-]. cbn. repeat split. apply H.
  - discriminate.
Qed.

Lemma main_reaches t0 script res s tr :
  main t0 script = (res, Some s, tr) ->
  exists s0, result (__init__ t0 tt) = Ok s0 /\ s = state (run script s0).
Proof.
  unfold main. destruct (__init__ t0 tt) as [[[s0|e] u] tr0].
  - destruct (run script s0) as [[r s1] tr1] eqn:E. intros [= _ <- _].
    exists s0. rewrite E. split; reflexivity.
  - discriminate.
Qed.

Lemma config_kind_order d :
  standard_config d \/ face_config d -> kind_order d.
Proof.
  intros [(g & h & n & m & _ & _ & _ & _ & ->)|(f & _ & ->)];
    [left | right]; reflexivity.
Qed.

Lemma main_kind_order t0 script res s tr :
  main t0 script = (res, Some s, tr) -> kind_order (active_filters s).
Proof.
  intros H. destruct (main_reaches _ _ _ _ _ H) as (s0 & H0 & ->).
  apply (run_state (fun s => kind_order (active_filters s))); cbn; auto.
  - intros s1 name f i H1 _ _. unfold kind_order.
    now rewrite setidx_keys.
  - intros s1 d _ Hd. now apply config_kind_order.
  - apply config_kind_order. left. now apply (init_ok t0).
Qed.

Lemma main_max_num_faces t0 script res s tr :
  main t0 script = (res, Some s, tr) -> max_num_faces (face_mesh s) = 2%nat.
Proof.
  intros H. destruct (main_reaches _ _ _ _ _ H) as (s0 & H0 & ->).
  apply (run_state (fun s => max_num_faces (face_mesh s) = 2%nat)); cbn; auto.
  now apply (init_ok t0).
Qed.

Lemma landmark_sets_firstn fm in_view :
  landmark_sets (multi_face_landmarks fm in_view)
  = firstn (max_num_faces fm) in_view.
Proof.
  unfold multi_face_landmarks.
  destruct (firstn (max_num_faces fm) in_view); reflexivity.
Qed.

(** C8. On a frame that was read, [process_frame] calls [apply_filter] face
    by face in detection order and, for each face, on every filter of
    [active_filters] in the order of the dict; every call receives the frame
    the call before it returned, starting from the mirrored capture, and the
    frame returned is the last one with the FPS text on it.  In every session
    that [main] reaches the dict is glasses, hat, nose, mouth, in this order,
    or face alone. *)
Theorem filters_applied_face_by_face t s frame :
  read t = Some frame ->
  let lms := landmark_sets (multi_face_landmarks (face_mesh s) (faces t)) in
  let r := process_frame t s in
  apply_calls (trace r) = calls_per_face (active_filters s) lms /\
  (exists out,
      composited (flip_frame frame) (trace r) out /\
      forall shown,
        result r = Ok (Some shown) ->
        shown = putText out (fps_text (time t) (prev_time s))) /\
  (forall t0 script res tr,
      main t0 script = (res, Some s, tr) -> kind_order (active_filters s)).
Proof.
  intros Hr lms r.
  destruct (process_frame_calls t s frame Hr)
    as (rest & Etr & Hc & Ha & _ & Hshown).
  fold r in Etr, Hshown. fold lms in Hc, Ha, Hshown.
  split; [|split].
  - rewrite Etr. cbn. exact Ha.
  - eexists. split; [|exact Hshown].
    rewrite Etr. do 3 (apply composited_skip; [reflexivity|]). exact Hc.
  - intros t0 script res tr. apply main_kind_order.
Qed.

(** C9. [cv2.flip(frame, 1)] moves the pixel of column [j] to column
    [width - 1 - j] of the same row and keeps the shape.  On a frame that
    was read, [process_frame] flips it first: the landmark provider gets the
    flipped frame (converted to RGB), the filters composite onto the flipped
    frame, and the frame returned for display is the result of that. *)
Theorem frame_mirrored_before_detection t s frame :
  read t = Some frame ->
  let r := process_frame t s in
  (exists rest out,
      trace r
      = EvRead (Some frame) :: EvFlip frame
        :: EvProcess (cvtColor_BGR2RGB (flip_frame frame)) :: rest /\
      composited (flip_frame frame) rest out /\
      forall shown,
        result r = Ok (Some shown) ->
        shown = putText out (fps_text (time t) (prev_time s))) /\
  shape (flip_frame frame) = shape frame /\
  (forall i j row,
      nth_error frame i = Some row -> (j < List.length row)%nat ->
      pixel_at (flip_frame frame) i j
      = pixel_at frame i (List.length row - 1 - j)).
Proof.
  intros Hr r.
  destruct (process_frame_calls t s frame Hr)
    as (rest & Etr & Hc & _ & _ & Hshown).
  split; [|split].
  - exists rest. eexists. split; [exact Etr|]. split; [exact Hc | exact Hshown].
  - unfold shape, flip_frame, cv2_flip_1. rewrite length_map.
    destruct frame as [|row rows]; cbn; [reflexivity|].
    now rewrite length_rev.
  - intros i j row Hi Hj. unfold pixel_at, flip_frame, cv2_flip_1.
    rewrite nth_error_map, Hi. cbn. rewrite nth_error_rev.
    destruct (Nat.ltb_spec j (List.length row)) as [_|Hge]; [|lia].
    f_equal. lia.
Qed.

(** C10. [__init__] configures the landmark provider with [max_num_faces]
    2 and nothing changes it: in every session that [main] reaches, a frame
    is processed for the first two faces in view at most, whatever their
    number, and [apply_filter] is called once per active filter for each of
    them. *)
Theorem at_most_two_faces_per_frame t0 script res s tr t frame :
  main t0 script = (res, Some s, tr) ->
  read t = Some frame ->
  let lms := firstn 2 (faces t) in
  max_num_faces (face_mesh s) = 2%nat /\
  (List.length lms <= 2)%nat /\
  apply_calls (trace (process_frame t s))
  = calls_per_face (active_filters s) lms /\
  count is_apply (trace (process_frame t s))
  = (List.length lms * List.length (active_filters s))%nat.
Proof.
  intros Hm Hr lms.
  pose proof (main_max_num_faces _ _ _ _ _ Hm) as H2.
  destruct (process_frame_calls t s frame Hr)
    as (rest & Etr & _ & Ha & Hn & _).
  rewrite landmark_sets_firstn, H2 in Ha, Hn. fold lms in Ha, Hn.
  split; [exact H2|]. split; [apply firstn_le_length|].
  rewrite Etr. split; [exact Ha | exact Hn].
Qed.

(** * Beyond the claims *)

(** ** Exceptions *)

Lemma raises_bind {S A B} (X : Exn -> Prop) (m : M S A) (k : A -> M S B) :
  raises X m -> (forall a, raises X (k a)) -> raises X (bind m k).
Proof.
  intros Hm Hk s e. specialize (Hm s). unfold bind.
  destruct (m s) as [[[a|e1] s1] tr1]; cbn in *.
  - specialize (Hk a s1). destruct (k a s1) as [[r s2] tr2]. exact (Hk e).
  - intros [= <-]. exact (Hm e1 eq_refl).
Qed.

Lemma raises_weaken {S A} (X Y : Exn -> Prop) (m : M S A) :
  raises X m -> (forall e, X e -> Y e) -> raises Y m.
Proof. intros H HXY s e E. exact (HXY e (H s e E)). Qed.

Lemma raises_never {S A} (X : Exn -> Prop) (m : M S A) :
  (forall s, exists a, result (m s) = Ok a) -> raises X m.
Proof. intros H s e E. destruct (H s) as [a Ha]. congruence. Qed.

Lemma new_filter_raises {S} c directory :
  raises (fun e => e = AssetLoadError directory /\
                   forall imgs, ~ loads directory imgs)
         (@new_filter S c directory).
Proof.
  intros s e.
  destruct (new_filter_run c directory s) as [(imgs & _ & ->)|[Hno ->]]; cbn.
  - discriminate.
  - intros [= <-]. split; [reflexivity | exact Hno].
Qed.

Lemma new_filter_load_failure {S} c directory :
  In directory asset_directories ->
  raises load_failure (@new_filter S c directory).
Proof.
  intros Hin. eapply raises_weaken; [apply new_filter_raises|].
  intros e [-> Hno]. exists directory. auto.
Qed.

Lemma standard_filters_raises {S} : raises load_failure (@standard_filters S).
Proof.
  unfold standard_filters.
  repeat (apply raises_bind;
          [apply new_filter_load_failure; cbn; tauto | intros ?]).
  apply raises_never. intros s. eexists. reflexivity.
Qed.

Lemma face_filters_raises {S} : raises load_failure (@face_filters S).
Proof.
  unfold face_filters.
  apply raises_bind; [apply new_filter_load_failure; cbn; tauto | intros ?].
  apply raises_never. intros s. eexists. reflexivity.
Qed.

(** ** The index update, case by case *)

Lemma cycle_cases name dir s :
  (getitem (active_filters s) name = None /\
   cycle name dir s = (Raise (KeyError name), s, [])) \/
  (exists f,
      getitem (active_filters s) name = Some f /\ assets f = [] /\
      cycle name dir s = (Raise ZeroDivisionError, s, [])) \/
  (exists f,
      getitem (active_filters s) name = Some f /\ assets f <> [] /\
      cycle name dir s
      = (Ok tt,
         with_index s name
           ((match dir with
             | next => current_asset_idx f + 1
             | prev => current_asset_idx f - 1
             end) mod Z.of_nat (List.length (assets f))), [])).
Proof.
  destruct (getitem (active_filters s) name) as [f|] eqn:Hf.
  - right. destruct (assets f) as [|a imgs] eqn:Ha.
    + left. exists f. split; [reflexivity|]. split; [exact Ha|].
      unfold cycle. rewrite bind_get, Hf, Ha. reflexivity.
    + right. exists f. split; [reflexivity|]. split; [congruence|].
      apply cycle_run; [exact Hf | congruence].
  - left. split; [reflexivity|]. unfold cycle. rewrite bind_get, Hf.
    reflexivity.
Qed.

Lemma getitem_setidx_other d k k' i :
  k <> k' -> getitem (setidx d k i) k' = getitem d k'.
Proof.
  intros Hne. induction d as [|[k0 f0] d IH]; cbn; [reflexivity|].
  destruct (String.eqb_spec k0 k) as [->|Hk]; cbn.
  - destruct (String.eqb_spec k k'); [contradiction | reflexivity].
  - destruct (String.eqb k0 k'); [reflexivity | exact IH].
Qed.

Lemma signature_setidx d k i : signature (setidx d k i) = signature d.
Proof.
  unfold signature. induction d as [|[k0 f0] d IH]; cbn; [reflexivity|].
  destruct (String.eqb k0 k); cbn; [reflexivity | now rewrite IH].
Qed.

Lemma coherent_with_index s name i : coherent s -> coherent (with_index s name i).
Proof.
  intros [Hsig Hne]. unfold coherent, with_index. cbn. split.
  - rewrite signature_setidx. exact Hsig.
  - apply (setidx_Forall (fun f => assets f <> [])); [exact Hne|].
    intros f Hf. cbn. rewrite Forall_forall in Hne.
    exact (Hne (name, f) (getitem_In _ _ _ Hf)).
Qed.

Lemma signature_cons d k c rest :
  signature d = (k, c) :: rest ->
  exists f d', d = (k, f) :: d' /\ filter_class f = c /\ signature d' = rest.
Proof.
  destruct d as [|[k0 f0] d]; cbn; [discriminate|].
  intros [= -> <- <-]. exists f0, d. auto.
Qed.

Lemma signature_nil d : signature d = [] -> d = [].
Proof. destruct d; [reflexivity | discriminate]. Qed.

Lemma coherent_getitem s name :
  coherent s ->
  In name (if is_face_selected s then ["face"]
           else ["glasses"; "hat"; "nose"; "mouth"]) ->
  exists f, getitem (active_filters s) name = Some f /\ assets f <> [].
Proof.
  intros [Hsig Hne] Hin. destruct (is_face_selected s).
  - apply signature_cons in Hsig. destruct Hsig as (f & d' & Ed & _ & Hd').
    apply signature_nil in Hd'. subst d'. rewrite Ed in *.
    inversion Hne as [|? ? Hf _]; subst.
    destruct Hin as [<-|[]]. exists f. split; [reflexivity | exact Hf].
  - apply signature_cons in Hsig. destruct Hsig as (g & d1 & Ed & _ & H1).
    apply signature_cons in H1. destruct H1 as (h & d2 & -> & _ & H2).
    apply signature_cons in H2. destruct H2 as (n & d3 & -> & _ & H3).
    apply signature_cons in H3. destruct H3 as (m & d4 & -> & _ & H4).
    apply signature_nil in H4. subst d4. rewrite Ed in *.
    inversion Hne as [|? ? Hg Hne1]; subst.
    inversion Hne1 as [|? ? Hh Hne2]; subst.
    inversion Hne2 as [|? ? Hn Hne3]; subst.
    inversion Hne3 as [|? ? Hm _]; subst.
    destruct Hin as [<-|[<-|[<-|[<-|[]]]]]; eexists; split;
      try reflexivity; assumption.
Qed.

Lemma process_frame_keeps t s :
  active_filters (state (process_frame t s)) = active_filters s /\
  is_face_selected (state (process_frame t s)) = is_face_selected s.
Proof.
  destruct (read t) as [frame|] eqn:Hr.
  - pose proof (process_frame_run t s frame Hr) as E. cbv zeta in E.
    rewrite E. destruct (Qeq_bool (time t) (prev_time s));
      [split; reflexivity|].
    destruct (fps_is_infinite (time t) (prev_time s)); split; reflexivity.
  - rewrite (process_frame_none t s Hr). split; reflexivity.
Qed.

(** ** Coherent sessions *)

Lemma standard_config_coherent s d :
  standard_config d ->
  coherent (set_active_filters (set_is_face_selected s false) d).
Proof.
  intros (g & h & n & m & [_ Hg] & [_ Hh] & [_ Hn] & [_ Hm] & ->).
  split; [reflexivity|]. repeat constructor; assumption.
Qed.

Lemma face_config_coherent s d :
  face_config d ->
  coherent (set_active_filters (set_is_face_selected s true) d).
Proof.
  intros (f & [_ Hf] & ->). split; [reflexivity|].
  repeat constructor; assumption.
Qed.

Lemma toggle_raises : raises load_failure toggle.
Proof.
  unfold toggle.
  apply raises_bind; [apply raises_never; intros s; eexists; reflexivity|].
  intros s0.
  apply raises_bind; [apply raises_never; intros s; eexists; reflexivity|].
  intros _.
  apply raises_bind; [apply raises_never; intros s; eexists; reflexivity|].
  intros s1.
  destruct (is_face_selected s1);
    (apply raises_bind;
     [first [apply face_filters_raises | apply standard_filters_raises]
     | intros d; apply raises_never; intros s; eexists; reflexivity]).
Qed.

Lemma toggle_outcome s :
  match result (toggle s) with
  | Ok _ => coherent (state (toggle s))
  | Raise e => load_failure e
  end.
Proof.
  assert (H : hoare (fun s' => s' = s) toggle
                    (fun _ => coherent) (fun _ => True)).
  { unfold toggle. apply hoare_get_bind. intros s0 ->.
    eapply hoare_seq
      with (Q := fun s' => s' = set_is_face_selected s (negb (is_face_selected s))).
    { apply hoare_put. reflexivity. }
    apply hoare_get_bind. intros s1 ->.
    destruct (is_face_selected s); cbn [is_face_selected set_is_face_selected negb].
    - eapply hoare_bind.
      + eapply hoare_weaken;
          [apply (standard_filters_hoare (fun _ => True))
          | intros s' _; exact I
          | intros a s' HQ; exact HQ
          | intros s' _; exact I].
      + intros d. apply hoare_assume. intros Hd. apply hoare_put.
        now apply standard_config_coherent.
    - eapply hoare_bind.
      + eapply hoare_weaken;
          [apply (face_filters_hoare (fun _ => True))
          | intros s' _; exact I
          | intros a s' HQ; exact HQ
          | intros s' _; exact I].
      + intros d. apply hoare_assume. intros Hd. apply hoare_put.
        now apply face_config_coherent. }
  specialize (H s eq_refl). pose proof (toggle_raises s) as Hr.
  destruct (result (toggle s)) as [a|e]; [exact H | now apply Hr].
Qed.

Ltac cycle_leaf s Hc :=
  match goal with
  | H : (_ =? _) && negb (is_face_selected s) = true
    |- context [cycle ?name ?dir] =>
      apply andb_prop in H; destruct H as [_ H];
      apply negb_true_iff in H;
      let f := fresh "f" in
      let Hf := fresh "Hf" in
      let Hne := fresh "Hne" in
      destruct (coherent_getitem s name Hc) as (f & Hf & Hne);
      [rewrite H; cbn; tauto|];
      rewrite (bind_ok _ _ _ _ _ _ (cycle_run name dir s f Hf Hne))
  | H : (_ =? _) && is_face_selected s = true
    |- context [cycle ?name ?dir] =>
      apply andb_prop in H; destruct H as [_ H];
      let f := fresh "f" in
      let Hf := fresh "Hf" in
      let Hne := fresh "Hne" in
      destruct (coherent_getitem s name Hc) as (f & Hf & Hne);
      [rewrite H; cbn; tauto|];
      rewrite (bind_ok _ _ _ _ _ _ (cycle_run name dir s f Hf Hne))
  end.

Lemma dispatch_key_outcome key s :
  coherent s ->
  match result (dispatch_key key s) with
  | Ok _ => coherent (state (dispatch_key key s))
  | Raise e => load_failure e
  end.
Proof.
  intros Hc. unfold dispatch_key. rewrite bind_get.
  repeat match goal with
         | |- context [if ?b then _ else _] => destruct b eqn:?
         end;
    try (cbn; exact Hc);
    try (cycle_leaf s Hc; cbn; now apply coherent_with_index).
  pose proof (toggle_outcome s) as Ht. unfold bind.
  destruct (toggle s) as [[[[]|e] s1] tr1]; exact Ht.
Qed.

Lemma dispatch_key_keeps key s :
  prev_time (state (dispatch_key key s)) = prev_time s /\
  frame_count (state (dispatch_key key s)) = frame_count s /\
  face_mesh (state (dispatch_key key s)) = face_mesh s.
Proof.
  pose (I := fun s' => prev_time s' = prev_time s /\
                       frame_count s' = frame_count s /\
                       face_mesh s' = face_mesh s).
  assert (H : hoare I (dispatch_key key) (fun _ => I) I).
  { apply dispatch_key_inv; unfold I; cbn; auto. }
  specialize (H s (conj eq_refl (conj eq_refl eq_refl))).
  destruct (result (dispatch_key key s)); exact H.
Qed.

Lemma iteration_outcome t s :
  coherent s ->
  match result (iteration t s) with
  | Ok _ => coherent (state (iteration t s))
  | Raise _ => True
  end.
Proof.
  intros Hc. destruct (isOpened t) eqn:Ho;
    [|rewrite (iteration_closed t s Ho); exact Hc].
  destruct (process_frame t s) as [[[[frame|]|e] s1] tr1] eqn:E.
  - assert (Hc1 : coherent s1).
    { destruct (process_frame_keeps t s) as (Ha & Hs).
      rewrite E in Ha, Hs. cbn in Ha, Hs.
      unfold coherent. rewrite Ha, Hs. exact Hc. }
    rewrite (iteration_frame t s frame s1 tr1 Ho E). cbn [result state fst snd].
    pose proof (dispatch_key_outcome (Z.land (waitKey t) 255) s1 Hc1) as Hd.
    destruct (result (dispatch_key (Z.land (waitKey t) 255) s1));
      [exact Hd | exact I].
  - destruct (process_frame_keeps t s) as (Ha & Hs).
    unfold iteration. rewrite Ho, bind_emit, (bind_ok_eq _ _ _ _ _ _ E).
    rewrite E in Ha, Hs. cbn in *. unfold coherent. rewrite Ha, Hs. exact Hc.
  - unfold iteration. rewrite Ho, bind_emit, (bind_raised _ _ _ _ _ _ E).
    exact I.
Qed.

Lemma run_loop_outcome script :
  forall s,
    coherent s ->
    match result (run_loop script s) with
    | Ok _ => coherent (state (run_loop script s))
    | Raise _ => True
    end.
Proof.
  induction script as [|t rest IH]; intros s Hc; cbn [run_loop].
  - exact Hc.
  - pose proof (iteration_outcome t s Hc) as Hit. unfold bind.
    destruct (iteration t s) as [[[[|]|e] s1] tr1]; cbn in Hit |- *.
    + specialize (IH s1 Hit).
      destruct (run_loop rest s1) as [[[o|e] s2] tr2]; cbn in IH |- *;
        exact IH.
    + exact Hit.
    + exact I.
Qed.

Lemma run_outcome script s :
  coherent s ->
  match result (run script s) with
  | Ok _ => coherent (state (run script s))
  | Raise _ => True
  end.
Proof.
  intros Hc. pose proof (run_loop_outcome script s Hc) as H. unfold run, bind.
  destruct (run_loop script s) as [[[[|]|e] s1] tr1]; exact H.
Qed.

Lemma init_outcome t0 :
  match result (__init__ t0 tt) with
  | Ok s0 => coherent s0
  | Raise _ => True
  end.
Proof.
  unfold __init__. rewrite bind_emit. cbn [result fst]. unfold bind.
  pose proof (standard_filters_hoare (fun _ : unit => True) tt I) as H.
  destruct (standard_filters tt) as [[[d|e] u] tr]; cbn in *; [|exact I].
  destruct H as [_ Hd].
  exact (standard_config_coherent
           {| face_mesh := {| static_image_mode := false; max_num_faces := 2;
                              refine_landmarks := false;
                              min_detection_confidence := 1 # 2;
                              min_tracking_confidence := 1 # 2 |};
              active_filters := d; is_face_selected := false;
              prev_time := t0; frame_count := 0 |} d Hd).
Qed.

Lemma main_outcome t0 script :
  match main t0 script with
  | (Ok _, Some s, _) => coherent s
  | (Ok _, None, _) => False
  | (Raise _, _, _) => True
  end.
Proof.
  unfold main. pose proof (init_outcome t0) as Hi.
  destruct (__init__ t0 tt) as [[[s0|e] u] tr0]; cbn in Hi; [|exact I].
  pose proof (run_outcome script s0 Hi) as Hr.
  destruct (run script s0) as [[[o|e] s1] tr1]; exact Hr.
Qed.

(** X1. In every session [main] reaches without an exception the mode flag
    and the dict agree: [is_face_selected] is true exactly when the dict is
    face alone (a [FaceMaskFilter]), false exactly when it is glasses, hat,
    nose, mouth (each of its own class, in this order); and every filter
    holds at least one asset. *)
Theorem mode_flag_and_dict_agree t0 script o s tr :
  main t0 script = (Ok o, Some s, tr) -> coherent s.
Proof.
  intros E. pose proof (main_outcome t0 script) as H. rewrite E in H. exact H.
Qed.

Lemma dispatch_key_returns key s :
  coherent s -> key <> ord "f" -> exists c, result (dispatch_key key s) = Ok c.
Proof.
  intros Hc Hk. unfold dispatch_key. rewrite bind_get.
  repeat match goal with
         | |- context [if ?b then _ else _] => destruct b eqn:?
         end;
    try (eexists; reflexivity);
    try (cycle_leaf s Hc; eexists; reflexivity).
  exfalso. apply Hk. now apply Z.eqb_eq.
Qed.

(** X2. In every session [main] reaches, the lookups and the arithmetic of
    the key dispatch never fail: whatever the key, [active_filters[...]]
    raises no [KeyError] and [% len(...assets)] divides by no zero.  Every
    key but the toggle key returns; the toggle key returns or raises what a
    filter constructor raises on a directory that does not load. *)
Theorem key_dispatch_lookups_never_fail t0 script o s tr key :
  main t0 script = (Ok o, Some s, tr) ->
  (key <> ord "f" -> exists c, result (dispatch_key key s) = Ok c) /\
  (forall e,
      result (dispatch_key key s) = Raise e ->
      load_failure e /\ e <> ZeroDivisionError /\ forall k, e <> KeyError k).
Proof.
  intros E. pose proof (main_outcome t0 script) as Hc. rewrite E in Hc.
  split; [now apply dispatch_key_returns|].
  intros e He. pose proof (dispatch_key_outcome key s Hc) as H.
  rewrite He in H. split; [exact H|].
  destruct H as (d & -> & _). split; [discriminate | intros k; discriminate].
Qed.

(** ** What a cycle key touches *)

Lemma dispatch_cycle_key nk pk name mode s key :
  In (nk, pk, name, mode) cycle_bindings ->
  is_face_selected s = mode ->
  key = nk \/ key = pk ->
  exists dir,
    dispatch_key key s = bind (cycle name dir) (fun _ => ret Continue) s.
Proof.
  intros Hin Hsel Hk.
  destruct (dispatch_binding nk pk name mode s Hin Hsel) as [Hn Hp].
  destruct Hk as [->| ->]; [exists next | exists prev]; assumption.
Qed.

Lemma dispatch_cycle_state nk pk name mode s key :
  In (nk, pk, name, mode) cycle_bindings ->
  is_face_selected s = mode ->
  key = nk \/ key = pk ->
  trace (dispatch_key key s) = [] /\
  (state (dispatch_key key s) = s \/
   exists i, state (dispatch_key key s) = with_index s name i).
Proof.
  intros Hin Hsel Hk.
  destruct (dispatch_cycle_key nk pk name mode s key Hin Hsel Hk) as [dir ->].
  destruct (cycle_cases name dir s)
    as [[_ E]|[(f & _ & _ & E)|(f & _ & _ & E)]].
  - rewrite (bind_raised _ _ _ _ _ _ E). split; [reflexivity | now left].
  - rewrite (bind_raised _ _ _ _ _ _ E). split; [reflexivity | now left].
  - rewrite (bind_ok _ _ _ _ _ _ E). cbn. split; [reflexivity|].
    right. eexists. reflexivity.
Qed.

(** X4. A cycle key, pressed in the state that owns its filter, touches one
    thing: the selection index of that filter.  The keys of the dict and
    their order, every other filter, the assets and the class of the filter
    itself, the mode flag, the clock reading, the frame count and the
    landmark provider are as before; no collaborator is called. *)
Theorem cycle_key_touches_one_index nk pk name mode s key :
  In (nk, pk, name, mode) cycle_bindings ->
  is_face_selected s = mode ->
  key = nk \/ key = pk ->
  let s' := state (dispatch_key key s) in
  trace (dispatch_key key s) = [] /\
  map fst (active_filters s') = map fst (active_filters s) /\
  (forall name',
      name' <> name ->
      getitem (active_filters s') name' = getitem (active_filters s) name') /\
  (forall f,
      getitem (active_filters s) name = Some f ->
      exists f',
        getitem (active_filters s') name = Some f' /\
        assets f' = assets f /\ filter_class f' = filter_class f) /\
  is_face_selected s' = is_face_selected s /\
  prev_time s' = prev_time s /\
  frame_count s' = frame_count s /\
  face_mesh s' = face_mesh s.
Proof.
  intros Hin Hsel Hk s'.
  destruct (dispatch_cycle_state nk pk name mode s key Hin Hsel Hk)
    as [Htr [E|[i E]]]; unfold s'; rewrite E; (split; [exact Htr|]).
  - repeat split; try reflexivity. intros f Hf. exists f. auto.
  - unfold with_index. cbn. split; [apply setidx_keys|].
    split; [intros name' Hne; apply getitem_setidx_other; congruence|].
    split; [|repeat split].
    intros f Hf. exists (set_current_asset_idx f i).
    split; [now apply getitem_setidx_same | split; reflexivity].
Qed.

(** X5. The two ways a cycle key fails in the state that owns its filter.
    If the dict has no entry under the key of the filter, the lookup raises
    [KeyError]; if the filter holds no asset, the modulo by [len(assets)]
    raises [ZeroDivisionError].  Either way the session is as before. *)
Theorem cycle_key_errors nk pk name mode s key :
  In (nk, pk, name, mode) cycle_bindings ->
  is_face_selected s = mode ->
  key = nk \/ key = pk ->
  (getitem (active_filters s) name = None ->
   dispatch_key key s = (Raise (KeyError name), s, [])) /\
  (forall f,
      getitem (active_filters s) name = Some f -> assets f = [] ->
      dispatch_key key s = (Raise ZeroDivisionError, s, [])).
Proof.
  intros Hin Hsel Hk.
  destruct (dispatch_cycle_key nk pk name mode s key Hin Hsel Hk) as [dir ->].
  destruct (cycle_cases name dir s)
    as [[Hn E]|[(f0 & Hf0 & Ha & E)|(f0 & Hf0 & Ha & E)]].
  - split.
    + intros _. now rewrite (bind_raised _ _ _ _ _ _ E).
    + intros f Hf. congruence.
  - split.
    + intros Hn. congruence.
    + intros f Hf _. now rewrite (bind_raised _ _ _ _ _ _ E).
  - split.
    + intros Hn. congruence.
    + intros f Hf Hempty. rewrite Hf0 in Hf. injection Hf as <-. contradiction.
Qed.

(** X6. Cycling wraps around at both ends.  With N assets and a selection
    inside [0, N): the next key moves index N-1 to 0 and any other index up
    by one; the previous key moves index 0 to N-1 (Python's [%] of -1 is
    N-1, not -1) and any other index down by one. *)
Theorem cycle_wraps_around nk pk name mode s f :
  In (nk, pk, name, mode) cycle_bindings ->
  is_face_selected s = mode ->
  getitem (active_filters s) name = Some f ->
  0 <= current_asset_idx f < Z.of_nat (List.length (assets f)) ->
  let N := Z.of_nat (List.length (assets f)) in
  let i := current_asset_idx f in
  dispatch_key nk s
  = (Ok Continue, with_index s name (if i =? N - 1 then 0 else i + 1), []) /\
  dispatch_key pk s
  = (Ok Continue, with_index s name (if i =? 0 then N - 1 else i - 1), []).
Proof.
  intros Hin Hsel Hf Hidx N i.
  assert (Hne : assets f <> []).
  { intros E. rewrite E in Hidx. cbn in Hidx. lia. }
  destruct (dispatch_binding_step nk pk name mode s f i Hin Hsel Hf Hne)
    as [Hn Hp].
  unfold i in Hn, Hp. rewrite (with_index_same s name f Hf) in Hn, Hp.
  fold i N in Hn, Hp. fold i N in Hidx.
  assert (En : (i + 1) mod N = if i =? N - 1 then 0 else i + 1).
  { destruct (Z.eqb_spec i (N - 1)) as [E|Hlt].
    - rewrite E. replace (N - 1 + 1) with N by lia. apply Z.mod_same. lia.
    - apply Z.mod_small. lia. }
  assert (Ep : (i - 1) mod N = if i =? 0 then N - 1 else i - 1).
  { destruct (Z.eqb_spec i 0) as [E|Hpos].
    - rewrite E. replace (0 - 1) with (N - 1 + (-1) * N) by lia.
      rewrite Z.mod_add by lia. apply Z.mod_small. lia.
    - apply Z.mod_small. lia. }
  rewrite En in Hn. rewrite Ep in Hp. split; assumption.
Qed.

(** ** The key that is read *)

Lemma iteration_result_state t s :
  (result (iteration t s), state (iteration t s))
  = if isOpened t then
      match process_frame t s with
      | (Ok (Some _), s1, _) =>
          (result (dispatch_key (Z.land (waitKey t) 255) s1),
           state (dispatch_key (Z.land (waitKey t) 255) s1))
      | (Ok None, s1, _) => (Ok Break, s1)
      | (Raise e, s1, _) => (Raise e, s1)
      end
    else (Ok Break, s).
Proof.
  destruct (isOpened t) eqn:Ho; [|now rewrite (iteration_closed t s Ho)].
  destruct (process_frame t s) as [[[[frame|]|e] s1] tr1] eqn:E.
  - now rewrite (iteration_frame t s frame s1 tr1 Ho E).
  - unfold iteration. rewrite Ho, bind_emit, (bind_ok_eq _ _ _ _ _ _ E).
    reflexivity.
  - unfold iteration. rewrite Ho, bind_emit, (bind_raised _ _ _ _ _ _ E).
    reflexivity.
Qed.

(** X7. The key dispatch sees the answer of [cv2.waitKey] through its low
    byte only: two answers with the same low byte end a turn of the loop
    with the same result and the same session.  The answer -1 (no key
    pressed) is the unbound key 255: the turn shows the frame and goes on,
    the session is the one [process_frame] left. *)
Theorem key_is_low_byte_of_waitKey t s :
  (forall k,
      Z.land k 255 = Z.land (waitKey t) 255 ->
      result (iteration (set_waitKey t k) s) = result (iteration t s) /\
      state (iteration (set_waitKey t k) s) = state (iteration t s)) /\
  (forall frame s1 tr1,
      isOpened t = true ->
      process_frame t s = (Ok (Some frame), s1, tr1) ->
      waitKey t = -1 ->
      iteration t s
      = (Ok Continue, s1,
         EvIsOpened true :: tr1 ++ [EvImshow frame; EvWaitKey (-1)])).
Proof.
  split.
  - intros k Hk.
    pose proof (iteration_result_state (set_waitKey t k) s) as E1.
    pose proof (iteration_result_state t s) as E2.
    cbn [isOpened waitKey set_waitKey] in E1.
    change (process_frame (set_waitKey t k)) with (process_frame t) in E1.
    rewrite Hk, <- E2 in E1. injection E1 as Hr Hs. split; assumption.
  - intros frame s1 tr1 Ho Hp Hk.
    rewrite (iteration_frame t s frame s1 tr1 Ho Hp). rewrite Hk.
    change (Z.land (-1) 255) with 255.
    rewrite (dispatch_unbound 255 s1);
      [reflexivity | cbn; intuition discriminate].
Qed.

(** ** What a frame leaves alone *)

(** X8. [process_frame] never touches the filters, the mode flag or the
    landmark provider, with or without faces in view and also when it
    raises.  A failed read changes nothing at all; a frame that was read is
    counted, and the clock reading is stored unless the frame rate divided
    by zero. *)
Theorem process_frame_keeps_selection t s :
  let s' := state (process_frame t s) in
  active_filters s' = active_filters s /\
  is_face_selected s' = is_face_selected s /\
  face_mesh s' = face_mesh s /\
  (read t = None -> s' = s) /\
  (forall frame,
      read t = Some frame ->
      frame_count s' = frame_count s + 1 /\
      prev_time s'
      = if Qeq_bool (time t) (prev_time s) then prev_time s else time t).
Proof.
  cbv zeta. destruct (read t) as [frame|] eqn:Hr.
  - pose proof (process_frame_run t s frame Hr) as E. cbv zeta in E.
    rewrite E. destruct (Qeq_bool (time t) (prev_time s));
      [|destruct (fps_is_infinite (time t) (prev_time s))]; cbn;
      (repeat split; try reflexivity; try discriminate);
      intros frame' _; split; reflexivity.
  - rewrite (process_frame_none t s Hr). cbn.
    repeat split; discriminate.
Qed.

(** X9. The capture is no longer opened when the loop tests it (a device
    that could not be opened, at the first test): [run] reads no frame and
    shows nothing more, releases the capture, destroys the windows and
    returns, the session as it was. *)
Theorem closed_capture_ends_run pre t rest s s1 tr1 :
  run_loop pre s = (Ok Pending, s1, tr1) ->
  isOpened t = false ->
  run (pre ++ t :: rest) s
  = (Ok Exited, s1,
     tr1 ++ [EvIsOpened false; EvRelease; EvDestroyAllWindows]).
Proof.
  intros Hpre Ho.
  apply (run_exit pre t rest s s1 tr1 s1 [EvIsOpened false] Hpre).
  now apply iteration_closed.
Qed.

(** ** What the key dispatch calls *)

Lemma cycle_trace name dir s : trace (cycle name dir s) = [].
Proof.
  destruct (cycle_cases name dir s)
    as [[_ E]|[(f & _ & _ & E)|(f & _ & _ & E)]]; now rewrite E.
Qed.

Lemma cycle_then_continue_trace name dir s :
  trace (bind (cycle name dir) (fun _ => ret Continue) s) = [].
Proof.
  pose proof (cycle_trace name dir s) as H. unfold bind.
  destruct (cycle name dir s) as [[[[]|e] s1] tr1]; cbn in *; now subst.
Qed.

Lemma toggle_emits_new_filter :
  emits (fun e => is_new_filter e = true) toggle.
Proof.
  assert (Hn : forall S c d,
             emits (fun e => is_new_filter e = true) (@new_filter S c d)).
  { intros S c d s.
    destruct (new_filter_run c d s) as [(imgs & _ & ->)|[_ ->]];
      repeat constructor. }
  unfold toggle.
  apply emits_bind; [apply emits_get | intros s0].
  apply emits_bind; [apply emits_put | intros _].
  apply emits_bind; [apply emits_get | intros s1].
  destruct (is_face_selected s1).
  - apply emits_bind; [|intros d; apply emits_put].
    unfold face_filters. apply emits_bind; [apply Hn | intros f; apply emits_ret].
  - apply emits_bind; [|intros d; apply emits_put].
    unfold standard_filters.
    repeat (apply emits_bind; [apply Hn | intros ?]). apply emits_ret.
Qed.

Lemma dispatch_key_trace key s :
  Forall (fun e => is_new_filter e = true) (trace (dispatch_key key s)) /\
  (key <> ord "f" -> trace (dispatch_key key s) = []).
Proof.
  unfold dispatch_key. rewrite bind_get.
  repeat match goal with
         | |- context [if ?b then _ else _] => destruct b eqn:?
         end;
    try (rewrite cycle_then_continue_trace; split; [constructor | reflexivity]);
    try (split; [constructor | reflexivity]).
  split.
  - apply (emits_bind (fun e => is_new_filter e = true));
      [apply toggle_emits_new_filter | intros _; apply emits_ret].
  - intros Hne. exfalso. apply Hne. now apply Z.eqb_eq.
Qed.

(** X11. Only the toggle key makes the key dispatch call anything: every
    other key, bound or not, calls no collaborator at all, and all the
    toggle key calls are filter constructors (the asset directories are
    loaded again at every toggle). *)
Theorem only_toggle_builds_filters key s :
  Forall (fun e => is_new_filter e = true) (trace (dispatch_key key s)) /\
  (key <> ord "f" -> trace (dispatch_key key s) = []).
Proof. apply dispatch_key_trace. Qed.

(** ** Counting frames *)

Lemma count_none p tr : Forall (fun e => p e = false) tr -> count p tr = 0%nat.
Proof.
  unfold count. induction 1 as [|e tr He _ IH]; cbn; [reflexivity|].
  now rewrite He.
Qed.

Lemma new_filter_events_uncounted p tr :
  (forall c d, p (EvNewFilter c d) = false) ->
  Forall (fun e => is_new_filter e = true) tr -> count p tr = 0%nat.
Proof.
  intros Hp H. apply count_none. eapply Forall_impl; [|exact H].
  intros [] He; try discriminate. apply Hp.
Qed.

Lemma faces_trace_uncounted p items lms frame :
  (forall name f fr lm size, p (EvApply name f fr lm size) = false) ->
  count p (faces_trace items lms frame) = 0%nat.
Proof.
  intros Hp. apply count_none. revert frame.
  induction lms as [|lm rest IH]; intros frame; cbn; [constructor|].
  apply Forall_app. split; [|apply IH]. clear IH. revert frame.
  induction items as [|[name f] items IH]; intros frame; cbn; constructor.
  - apply Hp.
  - apply IH.
Qed.

Lemma iteration_frame_count t s :
  frame_count (state (iteration t s))
  = frame_count s + Z.of_nat (count is_flip (trace (iteration t s))) /\
  count is_process (trace (iteration t s))
  = count is_flip (trace (iteration t s)).
Proof.
  destruct (isOpened t) eqn:Ho;
    [|rewrite (iteration_closed t s Ho); cbn; split; [lia | reflexivity]].
  destruct (read t) as [frame|] eqn:Hr;
    [|rewrite (iteration_read_failed t s Ho Hr); cbn; split;
      [lia | reflexivity]].
  pose proof (process_frame_run t s frame Hr) as E. cbv zeta in E.
  set (lms := landmark_sets (multi_face_landmarks (face_mesh s) (faces t))) in *.
  assert (Hf : count is_flip (faces_trace (active_filters s) lms
                                (flip_frame frame)) = 0%nat)
    by (apply faces_trace_uncounted; reflexivity).
  assert (Hp : count is_process (faces_trace (active_filters s) lms
                                   (flip_frame frame)) = 0%nat)
    by (apply faces_trace_uncounted; reflexivity).
  assert (Hraise : forall e s',
             frame_count s' = frame_count s + 1 ->
             process_frame t s
             = (Raise e, s',
                [EvRead (Some frame); EvFlip frame;
                 EvProcess (cvtColor_BGR2RGB (flip_frame frame))]
                ++ faces_trace (active_filters s) lms (flip_frame frame)) ->
             frame_count (state (iteration t s))
             = frame_count s + Z.of_nat (count is_flip (trace (iteration t s)))
             /\ count is_process (trace (iteration t s))
                = count is_flip (trace (iteration t s))).
  { intros e s' Hs' E'.
    unfold iteration. rewrite Ho, bind_emit, (bind_raised _ _ _ _ _ _ E').
    cbn [state trace fst snd].
    change (EvIsOpened true :: ?a ++ ?b) with ([EvIsOpened true] ++ a ++ b).
    rewrite !count_app, Hf, Hp, Hs'. cbn. split; [lia | reflexivity]. }
  destruct (Qeq_bool (time t) (prev_time s));
    [eapply Hraise; [|exact E]; reflexivity|].
  destruct (fps_is_infinite (time t) (prev_time s));
    [eapply Hraise; [|exact E]; reflexivity|].
  rewrite (iteration_frame t s _ _ _ Ho E). cbn [state trace fst snd].
  set (s1 := set_prev_time (set_frame_count s (frame_count s + 1)) (time t)).
  set (d := dispatch_key (Z.land (waitKey t) 255) s1).
  destruct (dispatch_key_keeps (Z.land (waitKey t) 255) s1) as (_ & Hc & _).
  destruct (dispatch_key_trace (Z.land (waitKey t) 255) s1) as [Hn _].
  fold d in Hc, Hn. rewrite Hc.
  change (EvIsOpened true :: ?a ++ EvImshow ?f :: EvWaitKey ?k :: ?b)
    with ([EvIsOpened true] ++ a ++ [EvImshow f; EvWaitKey k] ++ b).
  rewrite !count_app, Hf, Hp.
  rewrite (new_filter_events_uncounted is_flip _ (fun _ _ => eq_refl) Hn).
  rewrite (new_filter_events_uncounted is_process _ (fun _ _ => eq_refl) Hn).
  cbn. split; [lia | reflexivity].
Qed.

Lemma run_loop_frame_count script :
  forall s,
    frame_count (state (run_loop script s))
    = frame_count s + Z.of_nat (count is_flip (trace (run_loop script s))) /\
    count is_process (trace (run_loop script s))
    = count is_flip (trace (run_loop script s)).
Proof.
  induction script as [|t rest IH]; intros s; cbn [run_loop].
  - cbn. split; [lia | reflexivity].
  - destruct (iteration_frame_count t s) as [Hc Hp].
    destruct (iteration t s) as [[[[|]|e] s1] tr1] eqn:E;
      cbn [state trace fst snd] in Hc, Hp.
    + rewrite (bind_ok_eq _ _ _ _ _ _ E). cbn [state trace fst snd].
      destruct (IH s1) as [Hc1 Hp1].
      rewrite !count_app, Hp, Hp1, Hc1, Hc. split; [lia | reflexivity].
    + rewrite (bind_ok_eq _ _ _ _ _ _ E). cbn. rewrite app_nil_r.
      split; assumption.
    + rewrite (bind_raised _ _ _ _ _ _ E). split; assumption.
Qed.

(** X12. The frame counter counts the frames: whatever [run] does, the
    session ends with [frame_count] raised by the number of frames that were
    read and mirrored, which is also the number of frames given to the
    landmark provider; a frame is counted even if the frame rate raises on
    it, a failed read is not. *)
Theorem frame_count_counts_frames script s :
  frame_count (state (run script s))
  = frame_count s + Z.of_nat (count is_flip (trace (run script s))) /\
  count is_process (trace (run script s))
  = count is_flip (trace (run script s)).
Proof.
  destruct (run_loop_frame_count script s) as [Hc Hp]. unfold run.
  destruct (run_loop script s) as [[[[|]|e] s1] tr1] eqn:E;
    cbn [state trace fst snd] in Hc, Hp.
  - rewrite (bind_ok_eq _ _ _ _ _ _ E). cbn [state trace fst snd].
    rewrite !bind_emit. cbn [state trace fst snd ret].
    rewrite !count_app. cbn. rewrite !Nat.add_0_r. split; assumption.
  - rewrite (bind_ok_eq _ _ _ _ _ _ E). cbn. rewrite app_nil_r.
    split; assumption.
  - rewrite (bind_raised _ _ _ _ _ _ E). split; assumption.
Qed.

(** X13. Toggling twice from the FACE_MASK state: with the five directories
    loading, the session is in the FACE_MASK state again with a new face
    filter at index 0, whatever the index was; on the way the four standard
    filters were built and dropped, five constructor calls in all. *)
Theorem toggle_twice_resets_face_mask s g h n m f :
  loads "imgs/glasses/" g -> loads "imgs/hats/" h ->
  loads "imgs/noses/" n -> loads "imgs/mouths/" m ->
  loads "imgs/faces/" f ->
  is_face_selected s = true ->
  let twice := dispatch_keys [ord "f"; ord "f"] s in
  result twice = Ok Continue /\
  is_face_selected (state twice) = true /\
  active_filters (state twice) = [("face", fresh FaceMaskFilter f)] /\
  trace twice
  = [EvNewFilter GlassesFilter "imgs/glasses/";
     EvNewFilter HatFilter "imgs/hats/";
     EvNewFilter NoseFilter "imgs/noses/";
     EvNewFilter MouthFilter "imgs/mouths/";
     EvNewFilter FaceMaskFilter "imgs/faces/"].
Proof.
  intros Hg Hh Hn Hm Hf Hsel twice.
  pose proof (toggle_off s g h n m Hsel Hg Hh Hn Hm) as Hoff.
  set (s1 := set_active_filters (set_is_face_selected s false)
               [("glasses", fresh GlassesFilter g); ("hat", fresh HatFilter h);
                ("nose", fresh NoseFilter n); ("mouth", fresh MouthFilter m)])
    in *.
  pose proof (toggle_on s1 f eq_refl Hf) as Hon.
  assert (E1 : dispatch_key (ord "f") s
               = (Ok Continue, s1,
                  [EvNewFilter GlassesFilter "imgs/glasses/";
                   EvNewFilter HatFilter "imgs/hats/";
                   EvNewFilter NoseFilter "imgs/noses/";
                   EvNewFilter MouthFilter "imgs/mouths/"])).
  { rewrite dispatch_toggle, (bind_ok _ _ _ _ _ _ Hoff). reflexivity. }
  assert (E2 : dispatch_key (ord "f") s1
               = (Ok Continue,
                  set_active_filters (set_is_face_selected s1 true)
                    [("face", fresh FaceMaskFilter f)],
                  [EvNewFilter FaceMaskFilter "imgs/faces/"])).
  { rewrite dispatch_toggle, (bind_ok _ _ _ _ _ _ Hon). reflexivity. }
  unfold twice. cbn [dispatch_keys].
  rewrite (bind_ok _ _ _ _ _ _ E1), (bind_ok _ _ _ _ _ _ E2).
  cbn. repeat split.
Qed.

(** ** Frames without a face, frame rate defined *)

(** X14. A frame that was read, no landmark set, and a clock whose reading
    differs from the one before by more than 2^-1024, so that the frame rate
    is defined and finite: [process_frame] calls the capture, the flip and
    the landmark provider and then only draws the FPS text; it returns the
    mirrored frame with that text, the filters and the mode flag untouched,
    and the turn of the loop goes on to show that frame and to dispatch the
    key. *)
Theorem no_faces_pass_through t s frame :
  read t = Some frame ->
  landmark_sets (multi_face_landmarks (face_mesh s) (faces t)) = [] ->
  Qeq_bool (time t) (prev_time s) = false ->
  fps_is_infinite (time t) (prev_time s) = false ->
  let r := process_frame t s in
  let text := fps_text (time t) (prev_time s) in
  let shown := putText (flip_frame frame) text in
  result r = Ok (Some shown) /\
  trace r = [EvRead (Some frame); EvFlip frame;
             EvProcess (cvtColor_BGR2RGB (flip_frame frame));
             EvPutText (flip_frame frame) text] /\
  active_filters (state r) = active_filters s /\
  is_face_selected (state r) = is_face_selected s /\
  (isOpened t = true ->
   let d := dispatch_key (Z.land (waitKey t) 255) (state r) in
   iteration t s
   = (result d, state d,
      EvIsOpened true
      :: trace r ++ EvImshow shown :: EvWaitKey (waitKey t) :: trace d)).
Proof.
  intros Hr Hl Hq Hinf r text shown.
  pose proof (process_frame_run t s frame Hr) as E. cbv zeta in E.
  rewrite Hl, Hq, Hinf in E. cbn [faces_frame faces_trace app] in E.
  fold r in E. fold text shown in E.
  rewrite E. cbn [result state trace fst snd].
  repeat split.
  intros Ho. apply (iteration_frame t s shown _ _ Ho E).
Qed.

End FaceFilters.

Arguments result {Asset Landmarks S A} x.
Arguments state {Asset Landmarks S A} x.
Arguments trace {Asset Landmarks S A} x.
Arguments filter_class {Asset} f.
Arguments assets {Asset} f.
Arguments current_asset_idx {Asset} f.
Arguments face_mesh {Asset} f.
Arguments active_filters {Asset} f.
Arguments is_face_selected {Asset} f.
Arguments prev_time {Asset} f.
Arguments frame_count {Asset} f.
Arguments loads {Asset} load_dir directory imgs.
Arguments count {Asset Landmarks} p tr.
Arguments is_apply {Asset Landmarks} e.
Arguments is_release {Asset Landmarks} e.
Arguments is_capture {Asset Landmarks} e.
Arguments apply_calls {Asset Landmarks} tr.
Arguments EvVideoCapture {Asset Landmarks}.
Arguments EvNewFilter {Asset Landmarks} c directory.
Arguments EvIsOpened {Asset Landmarks} b.
Arguments EvRead {Asset Landmarks} r.
Arguments EvFlip {Asset Landmarks} frame.
Arguments EvProcess {Asset Landmarks} frame_rgb.
Arguments EvApply {Asset Landmarks} name f frame lm size.
Arguments EvPutText {Asset Landmarks} frame text.
Arguments EvImshow {Asset Landmarks} frame.
Arguments EvWaitKey {Asset Landmarks} k.
Arguments EvRelease {Asset Landmarks}.
Arguments EvDestroyAllWindows {Asset Landmarks}.
Arguments getitem {Asset} d k.
Arguments with_index {Asset} s name j.
Arguments coherent {Asset} s.
Arguments load_failure {Asset} load_dir e.
Arguments set_waitKey {Landmarks} t k.
Arguments is_flip {Asset Landmarks} e.
Arguments is_process {Asset Landmarks} e.
Arguments is_new_filter {Asset Landmarks} e.

(** * A sample session

    Three images in each directory of the standard filters, two face masks,
    and filters that stack a row (class, index, face) on the frame they are
    given, so that the order of the calls can be read off the frame. *)

Module Sample.

Definition load_dir (directory : string) : option (list nat) :=
  if String.eqb directory "imgs/faces/" then Some [10%nat; 11%nat]
  else Some [0%nat; 1%nat; 2%nat].

Definition code (c : FilterClass) : Z :=
  match c with
  | GlassesFilter => 1
  | HatFilter => 2
  | NoseFilter => 3
  | MouthFilter => 4
  | FaceMaskFilter => 5
  end.

Definition apply_filter (f : Filter nat) (frame : Frame) (lm : nat)
           (size : Z * Z) : Frame :=
  [(code (filter_class f), current_asset_idx f, Z.of_nat lm)] :: frame.

Definition putText (frame : Frame) (text : string) : Frame := frame.

Definition fps_text (curr_time prev_time : Q) : string := "FPS".

Definition frame : Frame := [[(1, 2, 3); (4, 5, 6)]].

(** A turn of the loop with an opened capture and a frame. *)
Definition tick (key : Z) (now : Q) (in_view : list nat) : Tick nat :=
  {| isOpened := true; read := Some frame; faces := in_view;
     time := now; waitKey := key |}.

(** A turn of the loop whose read fails. *)
Definition lost (now : Q) : Tick nat :=
  {| isOpened := true; read := None; faces := [];
     time := now; waitKey := -1 |}.

Definition filter_of (c : FilterClass) (idx : Z) : Filter nat :=
  {| filter_class := c; assets := [0%nat; 1%nat; 2%nat];
     current_asset_idx := idx |}.

(** The session [__init__] builds at time 0. *)
Definition session : FaceFilterSystem nat :=
  {| face_mesh := {| static_image_mode := false; max_num_faces := 2;
                     refine_landmarks := false;
                     min_detection_confidence := 1 # 2;
                     min_tracking_confidence := 1 # 2 |};
     active_filters := [("glasses", filter_of GlassesFilter 0);
                        ("hat", filter_of HatFilter 0);
                        ("nose", filter_of NoseFilter 0);
                        ("mouth", filter_of MouthFilter 0)];
     is_face_selected := false;
     prev_time := 0;
     frame_count := 0 |}.

(** The session after one press of the previous-hat key at time 1. *)
Definition cycled : FaceFilterSystem nat :=
  {| face_mesh := face_mesh session;
     active_filters := [("glasses", filter_of GlassesFilter 0);
                        ("hat", filter_of HatFilter 2);
                        ("nose", filter_of NoseFilter 0);
                        ("mouth", filter_of MouthFilter 0)];
     is_face_selected := false;
     prev_time := 1;
     frame_count := 1 |}.

(** The session after the toggle key at time 1 and the next-mask key at
    time 2. *)
Definition masked : FaceFilterSystem nat :=
  {| face_mesh := face_mesh session;
     active_filters := [("face",
                         {| filter_class := FaceMaskFilter;
                            assets := [10%nat; 11%nat];
                            current_asset_idx := 1 |})];
     is_face_selected := true;
     prev_time := 2;
     frame_count := 2 |}.

(** A session whose hat holds no asset. *)
Definition bare : FaceFilterSystem nat :=
  {| face_mesh := face_mesh session;
     active_filters := [("glasses", filter_of GlassesFilter 0);
                        ("hat", {| filter_class := HatFilter; assets := [];
                                   current_asset_idx := 0 |});
                        ("nose", filter_of NoseFilter 0);
                        ("mouth", filter_of MouthFilter 0)];
     is_face_selected := false;
     prev_time := 0;
     frame_count := 0 |}.

(** A turn of the loop that finds the capture closed. *)
Definition closed : Tick nat :=
  {| isOpened := false; read := None; faces := [];
     time := 0; waitKey := -1 |}.

Definition process_frame :=
  process_frame nat nat apply_filter putText fps_text.
Definition iteration :=
  iteration nat nat load_dir apply_filter putText fps_text.
Definition dispatch_key := dispatch_key nat nat load_dir.
Definition run := run nat nat load_dir apply_filter putText fps_text.
Definition main := main nat nat load_dir apply_filter putText fps_text.
Definition dispatch_keys := dispatch_keys nat nat load_dir.

End Sample.

(** Two presses of the previous-hat key take the hat from index 0 to 2 and
    then to 1, inside [0, 3). *)
Lemma cycling_keeps_index_in_range_witness :
  let s := state (Sample.run [Sample.tick 113 1 []; Sample.tick 113 2 []]
                             Sample.session) in
  In ("hat", Sample.filter_of HatFilter 1) (active_filters s) /\
  0 <= current_asset_idx (Sample.filter_of HatFilter 1)
    < Z.of_nat (List.length (assets (Sample.filter_of HatFilter 1))).
Proof.
  cbv zeta.
  assert (Hin : In ("hat", Sample.filter_of HatFilter 1)
                   (active_filters
                      (state (Sample.run
                                [Sample.tick 113 1 []; Sample.tick 113 2 []]
                                Sample.session)))).
  { vm_compute. right. left. reflexivity. }
  split; [exact Hin|].
  apply (cycling_keeps_index_in_range nat nat Sample.load_dir
           Sample.apply_filter Sample.putText Sample.fps_text
           [Sample.tick 113 1 []; Sample.tick 113 2 []] Sample.session)
    with (name := "hat") (f := Sample.filter_of HatFilter 1).
  - intros name f [H|[H|[H|[H|[]]]]]; injection H as _ <-; reflexivity.
  - exact Hin.
  - cbn. lia.
Defined.

(** The hat has three assets: three presses of [e] come back to index 0, and
    so does [q] after [e]. *)
Lemma cycle_next_N_times_and_prev_after_next_witness :
  Sample.dispatch_keys [101; 101; 101] Sample.session
  = (Ok Continue, Sample.session, []) /\
  Sample.dispatch_keys [101; 113] Sample.session
  = (Ok Continue, Sample.session, []).
Proof.
  apply (cycle_next_N_times_and_prev_after_next nat nat Sample.load_dir
           101 113 "hat" false Sample.session (Sample.filter_of HatFilter 0)).
  - left. reflexivity.
  - reflexivity.
  - reflexivity.
  - cbn. lia.
  - cbn. lia.
Defined.

(** Toggling twice from the session whose hat is at index 2 gives the dict
    of the new session, hat at index 0. *)
Lemma toggle_twice_resets_standard_witness :
  let twice := Sample.dispatch_keys [102; 102] Sample.cycled in
  result twice = Ok Continue /\
  is_face_selected (state twice) = false /\
  active_filters (state twice) = active_filters Sample.session.
Proof.
  destruct (toggle_twice_resets_standard nat nat Sample.load_dir Sample.cycled
              [0%nat; 1%nat; 2%nat] [0%nat; 1%nat; 2%nat]
              [0%nat; 1%nat; 2%nat] [0%nat; 1%nat; 2%nat] [10%nat; 11%nat])
    as (_ & (R & S & A & _) & _);
    try (split; [reflexivity | discriminate]).
  - reflexivity.
  - cbv zeta. split; [exact R|]. split; [exact S | exact A].
Defined.

(** In the standard state the face-mask key [m] and the unbound key 255 (no
    key pressed) change nothing. *)
Lemma key_dispatch_by_state_witness :
  Sample.dispatch_key 109 Sample.session = (Ok Continue, Sample.session, []) /\
  Sample.dispatch_key 255 Sample.session = (Ok Continue, Sample.session, []).
Proof.
  destruct (key_dispatch_by_state nat nat Sample.load_dir Sample.apply_filter
              Sample.putText Sample.fps_text Sample.session)
    as (Hforeign & _ & _ & _ & Hother).
  split.
  - apply Hforeign. right. split; [left; reflexivity | reflexivity].
  - apply Hother. vm_compute. intuition discriminate.
Defined.

(** Nobody in view and a clock that reads 0 as at [__init__]: the division
    by zero leaves [process_frame] and [run].  A clock that reads 2^-1074,
    the smallest double above 0: [OverflowError]. *)
Lemma no_faces_frame_rate_raises_witness :
  result (Sample.process_frame (Sample.tick (-1) 0 []) Sample.session)
  = Raise ZeroDivisionError /\
  result (Sample.run [Sample.tick (-1) 0 []; Sample.tick (-1) 1 []]
                     Sample.session)
  = Raise ZeroDivisionError /\
  result (Sample.process_frame (Sample.tick (-1) (1 # 2 ^ 1074) [])
                               Sample.session)
  = Raise OverflowError.
Proof.
  destruct (no_faces_frame_rate_raises nat nat Sample.load_dir
              Sample.apply_filter Sample.putText Sample.fps_text
              (Sample.tick (-1) 0 []) Sample.session Sample.frame
              eq_refl eq_refl) as (_ & Hzero & _).
  destruct (Hzero eq_refl) as (Hp & Hrun).
  destruct (no_faces_frame_rate_raises nat nat Sample.load_dir
              Sample.apply_filter Sample.putText Sample.fps_text
              (Sample.tick (-1) (1 # 2 ^ 1074) []) Sample.session Sample.frame
              eq_refl eq_refl) as (_ & _ & Hinf).
  split; [|split].
  - unfold Sample.process_frame. rewrite Hp. reflexivity.
  - unfold Sample.run. rewrite (Hrun eq_refl [Sample.tick (-1) 1 []]).
    reflexivity.
  - unfold Sample.process_frame. rewrite Hinf; [reflexivity | | ];
      vm_compute; reflexivity.
Defined.

(** One good frame, then a failed read. *)
Lemma read_failure_ends_run_witness :
  let x := Sample.run [Sample.tick (-1) 1 []; Sample.lost 2] Sample.session in
  result x = Ok Exited /\ count is_release (trace x) = 1%nat.
Proof.
  pose (pre := @run_loop nat nat Sample.load_dir Sample.apply_filter
                 Sample.putText Sample.fps_text [Sample.tick (-1) 1 []]
                 Sample.session).
  destruct (read_failure_ends_run nat nat Sample.load_dir Sample.apply_filter
              Sample.putText Sample.fps_text
              [Sample.tick (-1) 1 []] (Sample.lost 2) [] Sample.session
              (state pre) (trace pre) eq_refl eq_refl eq_refl) as (_ & Hrun).
  cbv zeta. unfold Sample.run.
  change [Sample.tick (-1) 1 []; Sample.lost 2]
    with ([Sample.tick (-1) 1 []] ++ [Sample.lost 2]).
  rewrite Hrun. split; reflexivity.
Defined.

(** C7, as stated, fails.  The clock reads the same value in [__init__] and
    at the first frame: the frame rate divides by zero, the exception leaves
    [run], and the capture that [__init__] opened is never released. *)
Lemma capture_not_released_on_exception :
  let x := Sample.main 0 [Sample.tick (-1) 0 []] in
  result x = Raise ZeroDivisionError /\
  count is_capture (trace x) = 1%nat /\
  count is_release (trace x) = 0%nat.
Proof. vm_compute. repeat split. Qed.

(** The quit key at the second frame: one release, at the end. *)
Lemma capture_released_when_loop_exits_witness :
  let x := Sample.main 0 [Sample.tick (-1) 1 []; Sample.tick 108 2 []] in
  count is_release (trace x) = 1%nat.
Proof.
  destruct (capture_released_when_loop_exits nat nat Sample.load_dir
              Sample.apply_filter Sample.putText Sample.fps_text
              0 [Sample.tick (-1) 1 []; Sample.tick 108 2 []])
    as (_ & Hexit & _).
  destruct (Hexit eq_refl) as (Hcount & _). exact Hcount.
Defined.

(** Two faces in view: the four filters on face 7, then the four on face 8;
    the rows stacked on the frame are in the same order. *)
Lemma filters_applied_face_by_face_witness :
  let r := Sample.process_frame (Sample.tick (-1) 1 [7%nat; 8%nat])
                                Sample.session in
  map (fun c => (fst (fst c), snd c)) (apply_calls (trace r))
  = [("glasses", 7%nat); ("hat", 7%nat); ("nose", 7%nat); ("mouth", 7%nat);
     ("glasses", 8%nat); ("hat", 8%nat); ("nose", 8%nat); ("mouth", 8%nat)]
  /\
  result r
  = Ok (Some [[(4, 0, 8)]; [(3, 0, 8)]; [(2, 0, 8)]; [(1, 0, 8)];
              [(4, 0, 7)]; [(3, 0, 7)]; [(2, 0, 7)]; [(1, 0, 7)];
              [(4, 5, 6); (1, 2, 3)]]).
Proof.
  destruct (filters_applied_face_by_face nat nat Sample.load_dir
              Sample.apply_filter Sample.putText Sample.fps_text
              (Sample.tick (-1) 1 [7%nat; 8%nat]) Sample.session
              Sample.frame eq_refl) as (Hcalls & _ & _).
  cbv zeta. unfold Sample.process_frame. rewrite Hcalls.
  split; reflexivity.
Defined.

(** The frame (1,2,3) (4,5,6) has (4,5,6) in column 0 after the flip. *)
Lemma frame_mirrored_before_detection_witness :
  pixel_at (flip_frame Sample.frame) 0 0 = pixel_at Sample.frame 0 1 /\
  pixel_at (flip_frame Sample.frame) 0 0 = Some (4, 5, 6).
Proof.
  destruct (frame_mirrored_before_detection nat nat Sample.apply_filter
              Sample.putText Sample.fps_text
              (Sample.tick (-1) 1 []) Sample.session Sample.frame eq_refl)
    as (_ & _ & Hpix).
  split.
  - apply (Hpix 0%nat 0%nat [(1, 2, 3); (4, 5, 6)] eq_refl). cbn. lia.
  - reflexivity.
Defined.

(** Three faces in view after one turn of the loop: the four filters are
    applied to the first two, eight calls. *)
Lemma at_most_two_faces_per_frame_witness :
  let t := Sample.tick (-1) 5 [7%nat; 8%nat; 9%nat] in
  count is_apply (trace (Sample.process_frame t Sample.cycled)) = 8%nat.
Proof.
  pose (x := Sample.main 0 [Sample.tick 113 1 []]).
  destruct (at_most_two_faces_per_frame nat nat Sample.load_dir
              Sample.apply_filter Sample.putText Sample.fps_text
              0 [Sample.tick 113 1 []] (result x) Sample.cycled (trace x)
              (Sample.tick (-1) 5 [7%nat; 8%nat; 9%nat]) Sample.frame
              eq_refl eq_refl) as (_ & _ & _ & Hcount).
  exact Hcount.
Defined.

(** * Samples for the properties beyond the claims *)

(** The toggle key, then the next-mask key: flag and dict agree. *)
Lemma mode_flag_and_dict_agree_witness : coherent Sample.masked.
Proof.
  pose (x := Sample.main 0 [Sample.tick 102 1 []; Sample.tick 109 2 []]).
  exact (mode_flag_and_dict_agree nat nat Sample.load_dir Sample.apply_filter
           Sample.putText Sample.fps_text
           0 [Sample.tick 102 1 []; Sample.tick 109 2 []]
           Pending Sample.masked (trace x) eq_refl).
Defined.

(** After the toggle key and the next-mask key, the next-mask key finds the
    mask in the dict and its two assets. *)
Lemma key_dispatch_lookups_never_fail_witness :
  exists c, result (Sample.dispatch_key 109 Sample.masked) = Ok c.
Proof.
  pose (x := Sample.main 0 [Sample.tick 102 1 []; Sample.tick 109 2 []]).
  destruct (key_dispatch_lookups_never_fail nat nat Sample.load_dir
              Sample.apply_filter Sample.putText Sample.fps_text
              0 [Sample.tick 102 1 []; Sample.tick 109 2 []]
              Pending Sample.masked (trace x) 109 eq_refl) as (Hret & _).
  apply Hret. discriminate.
Defined.

(** The next-hat key leaves the glasses alone. *)
Lemma cycle_key_touches_one_index_witness :
  getitem (active_filters (state (Sample.dispatch_key 101 Sample.session)))
          "glasses"
  = getitem (active_filters Sample.session) "glasses".
Proof.
  destruct (cycle_key_touches_one_index nat nat Sample.load_dir
              101 113 "hat" false Sample.session 101)
    as (_ & _ & Hother & _).
  - left. reflexivity.
  - reflexivity.
  - left. reflexivity.
  - apply Hother. discriminate.
Defined.

(** The next-hat key on a hat without assets. *)
Lemma cycle_key_errors_witness :
  Sample.dispatch_key 101 Sample.bare = (Raise ZeroDivisionError, Sample.bare, []).
Proof.
  destruct (cycle_key_errors nat nat Sample.load_dir
              101 113 "hat" false Sample.bare 101) as (_ & Hempty).
  - left. reflexivity.
  - reflexivity.
  - left. reflexivity.
  - apply (Hempty {| filter_class := HatFilter; assets := [];
                     current_asset_idx := 0 |}); reflexivity.
Defined.

(** The previous-hat key at index 0 of three assets selects index 2. *)
Lemma cycle_wraps_around_witness :
  Sample.dispatch_key 113 Sample.session
  = (Ok Continue, with_index Sample.session "hat" 2, []).
Proof.
  destruct (cycle_wraps_around nat nat Sample.load_dir
              101 113 "hat" false Sample.session
              (Sample.filter_of HatFilter 0)) as (_ & Hprev).
  - left. reflexivity.
  - reflexivity.
  - reflexivity.
  - cbn. lia.
  - exact Hprev.
Defined.

(** The answers 613 and 101 of [cv2.waitKey] are the same key. *)
Lemma key_is_low_byte_of_waitKey_witness :
  state (Sample.iteration (Sample.tick 613 1 []) Sample.session)
  = state (Sample.iteration (Sample.tick 101 1 []) Sample.session).
Proof.
  destruct (key_is_low_byte_of_waitKey nat nat Sample.load_dir
              Sample.apply_filter Sample.putText Sample.fps_text
              (Sample.tick 101 1 []) Sample.session) as (Hlow & _).
  destruct (Hlow 613 eq_refl) as (_ & Hs). exact Hs.
Defined.

(** A frame with a face in view leaves the hat at index 2. *)
Lemma process_frame_keeps_selection_witness :
  active_filters
    (state (Sample.process_frame (Sample.tick (-1) 5 [7%nat]) Sample.cycled))
  = active_filters Sample.cycled.
Proof.
  destruct (process_frame_keeps_selection nat nat Sample.apply_filter
              Sample.putText Sample.fps_text
              (Sample.tick (-1) 5 [7%nat]) Sample.cycled) as (H & _).
  exact H.
Defined.

(** The capture is closed at the first test. *)
Lemma closed_capture_ends_run_witness :
  Sample.run [Sample.closed] Sample.session
  = (Ok Exited, Sample.session,
     [EvIsOpened false; EvRelease; EvDestroyAllWindows]).
Proof.
  exact (closed_capture_ends_run nat nat Sample.load_dir Sample.apply_filter
           Sample.putText Sample.fps_text
           [] Sample.closed [] Sample.session Sample.session []
           eq_refl eq_refl).
Defined.

(** The next-hat key loads nothing. *)
Lemma only_toggle_builds_filters_witness :
  trace (Sample.dispatch_key 101 Sample.session) = [].
Proof.
  destruct (only_toggle_builds_filters nat nat Sample.load_dir
              101 Sample.session) as (_ & H).
  apply H. discriminate.
Defined.

(** Two toggles from the mask at index 1: the mask is at index 0. *)
Lemma toggle_twice_resets_face_mask_witness :
  active_filters (state (Sample.dispatch_keys [102; 102] Sample.masked))
  = [("face", {| filter_class := FaceMaskFilter; assets := [10%nat; 11%nat];
                 current_asset_idx := 0 |})].
Proof.
  destruct (toggle_twice_resets_face_mask nat nat Sample.load_dir Sample.masked
              [0%nat; 1%nat; 2%nat] [0%nat; 1%nat; 2%nat]
              [0%nat; 1%nat; 2%nat] [0%nat; 1%nat; 2%nat] [10%nat; 11%nat])
    as (_ & _ & A & _);
    try (split; [reflexivity | discriminate]).
  - reflexivity.
  - exact A.
Defined.

(** Nobody in view, the clock at 1 after 0. *)
Lemma no_faces_pass_through_witness :
  result (Sample.process_frame (Sample.tick (-1) 1 []) Sample.session)
  = Ok (Some [[(4, 5, 6); (1, 2, 3)]]).
Proof.
  destruct (no_faces_pass_through nat nat Sample.load_dir Sample.apply_filter
              Sample.putText Sample.fps_text
              (Sample.tick (-1) 1 []) Sample.session Sample.frame
              eq_refl eq_refl eq_refl) as (Hres & _).
  - vm_compute. reflexivity.
  - exact Hres.
Defined.
